(** * Merlin models: tabular padding, tabular inputs, negative sampling and
      transformer blocks

    A shallow embedding of

    - [merlin/models/torch/transforms/sequences.py]  ([TabularPadding]),
    - [merlin/models/torch/inputs/tabular.py]        ([TabularInputBlock]),
    - [merlin/models/tf/sampling/base.py]            ([ItemSampler],
                                                      [AddRandomNegativesToBatch]),
    - [merlin/models/tf/blocks/transformer.py]       ([TransformerBlock]),

    together with the properties stated about them.

    Tensors are integer tensors of rank at most two.  A Python dictionary is
    an association list in insertion order.  Code that can raise returns a
    [result]; the exceptions of the tensor libraries are one constructor
    each, the exceptions the modelled code raises itself carry their
    message. *)

From stdpp Require Import base list list_numbers strings gmap.

Open Scope Z_scope.

(** ** Exceptions and results *)

Inductive exn : Type :=
  | RuntimeError                 (* raised inside torch *)
  | IndexError                   (* indexing a 0-d tensor *)
  | TypeError                    (* len() of a 0-d tensor *)
  | KeyError (key : string)      (* missing dictionary key *)
  | ValueError (msg : string)    (* raised by the modelled code *)
  | InvalidArgumentError         (* raised inside tensorflow *)
  | NotImplementedError.

Inductive result (A : Type) : Type :=
  | Ok (a : A)
  | Raise (e : exn).
Arguments Ok {A} a.
Arguments Raise {A} e.

Global Instance result_ret : MRet result := @Ok.
Global Instance result_bind : MBind result := λ A B f m,
  match m with Ok a => f a | Raise e => Raise e end.
Global Instance result_fmap : FMap result := λ A B f m,
  match m with Ok a => Ok (f a) | Raise e => Raise e end.

Global Instance exn_eq_dec : EqDecision exn.
Proof. solve_decision. Defined.

(** [mapM f l]: a list comprehension whose body can raise; the first
    exception, in list order, escapes. *)
Fixpoint mapM_result {A B} (f : A → result B) (l : list A) : result (list B) :=
  match l with
  | [] => Ok []
  | x :: l' => y ← f x; ys ← mapM_result f l'; Ok (y :: ys)
  end.

(** ** Python dictionaries

    Insertion ordered; assigning to a key that is present replaces the
    value where it stands, assigning to a new key appends. *)

Definition dict (V : Type) : Type := list (string * V).

Fixpoint dict_get {V} (k : string) (d : dict V) : option V :=
  match d with
  | [] => None
  | (k', v) :: d' => if String.eqb k k' then Some v else dict_get k d'
  end.

Fixpoint dict_set {V} (k : string) (v : V) (d : dict V) : dict V :=
  match d with
  | [] => [(k, v)]
  | (k', v') :: d' =>
      if String.eqb k k' then (k, v) :: d' else (k', v') :: dict_set k v d'
  end.

Definition dict_keys {V} (d : dict V) : list string := d.*1.
Definition dict_values {V} (d : dict V) : list V := d.*2.

(** [d[k]], which raises [KeyError] on a missing key. *)
Definition dict_item {V} (k : string) (d : dict V) : result V :=
  match dict_get k d with Some v => Ok v | None => Raise (KeyError k) end.

(** ** Strings *)

(** [s.endswith(suffix)] *)
Definition endswith (s suffix : string) : bool :=
  let n := String.length s in
  let m := String.length suffix in
  (m <=? n)%nat && String.eqb (String.substring (n - m) m s) suffix.

(** [s[: -len(suffix)]], used only after [s.endswith(suffix)]. *)
Definition drop_suffix (s suffix : string) : string :=
  String.substring 0 (String.length s - String.length suffix) s.

(** ** Schemas ([merlin.schema])

    An ordered collection of named columns, each with its tags. *)

Inductive Tags : Type :=
  | CATEGORICAL | CONTINUOUS | SEQUENCE | ITEM | ITEM_ID | USER.

Global Instance Tags_eq_dec : EqDecision Tags.
Proof. solve_decision. Defined.

Record ColumnSchema : Type := mkColumn {
  col_name : string;
  col_tags : list Tags
}.

Definition Schema : Type := list ColumnSchema.

(** [schema.column_names] *)
Definition column_names (schema : Schema) : list string := col_name <$> schema.

(** [schema.select_by_tag(tag)] *)
Definition select_by_tag (tag : Tags) (schema : Schema) : Schema :=
  filter (λ c, tag ∈ col_tags c) schema.

(** [name in names] *)
Definition str_in (name : string) (names : list string) : bool :=
  existsb (String.eqb name) names.

(** A loop whose body can raise, threading the value it builds. *)
Fixpoint foldM_result {A B} (f : B → A → result B) (b : B) (l : list A) : result B :=
  match l with
  | [] => Ok b
  | x :: l' => b' ← f b x; foldM_result f b' l'
  end.

(** ** Tensors *)

Module Torch.

(** An integer tensor of rank 0, 1 or 2.  [T2 c rows] has shape
    [(length rows, c)]; every row has [c] entries. *)
Inductive Tensor : Type :=
  | T0 (x : Z)
  | T1 (xs : list Z)
  | T2 (ncols : nat) (rows : list (list Z)).

Global Instance Tensor_eq_dec : EqDecision Tensor.
Proof. solve_decision. Defined.
Global Instance Tensor_inhabited : Inhabited Tensor := populate (T0 0).

(** [tensor.shape] *)
Definition shape (t : Tensor) : list nat :=
  match t with
  | T0 _ => []
  | T1 xs => [length xs]
  | T2 c rows => [length rows; c]
  end.

(** Every row of a rank-2 tensor has as many entries as the shape says. *)
Definition tensor_ok (t : Tensor) : bool :=
  match t with
  | T2 c rows => forallb (λ r, Nat.eqb (length r) c) rows
  | _ => true
  end.

(** [len(tensor)] *)
Definition tensor_len (t : Tensor) : result Z :=
  match t with
  | T0 _ => Raise TypeError
  | T1 xs => Ok (Z.of_nat (length xs))
  | T2 _ rows => Ok (Z.of_nat (length rows))
  end.

(** [xs[1:] - xs[:-1]] on a list. *)
Definition diff_list (xs : list Z) : list Z :=
  zip_with Z.sub (tail xs) (removelast xs).

(** [t[1:] - t[:-1]]: slices along the first dimension. *)
Definition diff_first (t : Tensor) : result Tensor :=
  match t with
  | T0 _ => Raise IndexError
  | T1 xs => Ok (T1 (diff_list xs))
  | T2 c rows => Ok (T2 c (zip_with (zip_with Z.sub) (tail rows) (removelast rows)))
  end.

(** All entries of a tensor, row major. *)
Definition entries (t : Tensor) : list Z :=
  match t with
  | T0 x => [x]
  | T1 xs => xs
  | T2 _ rows => concat rows
  end.

Definition max_listZ (x : Z) (xs : list Z) : Z := foldr Z.max x xs.

(** [int(torch.max(t))] / [int(t.max())]: raises on a tensor without
    entries. *)
Definition torch_max (t : Tensor) : result Z :=
  match entries t with
  | [] => Raise RuntimeError
  | x :: xs => Ok (max_listZ x xs)
  end.

(** [torch.arange(n)] *)
Definition arange (n : Z) : result (list Z) :=
  if n <? 0 then Raise RuntimeError else Ok (seqZ 0 n).

(** [torch.repeat_interleave(xs, repeats)] for two rank-1 tensors: entry [i]
    of [xs] is repeated [repeats[i]] times.  A negative repeat raises; so do
    arguments of different lengths (here both always have one entry per
    row). *)
Definition repeat_interleave (xs repeats : list Z) : result (list Z) :=
  if negb (Nat.eqb (length xs) (length repeats)) then Raise RuntimeError
  else if negb (forallb (λ r, 0 <=? r) repeats) then Raise RuntimeError
  else Ok (concat (zip_with (λ x r, replicate (Z.to_nat r) x) xs repeats)).

(** A sparse COO tensor of rank 2: one coordinate pair per value. *)
Record SparseCOO : Type := mkSparseCOO {
  sp_indices : list (Z * Z);
  sp_values : list Z;
  sp_rows : nat;
  sp_cols : nat
}.

Definition index_in_bounds (rows cols : Z) (ix : Z * Z) : bool :=
  (0 <=? ix.1) && (ix.1 <? rows) && (0 <=? ix.2) && (ix.2 <? cols).

(** [torch.sparse_coo_tensor(indices.T, values, torch.Size([rows, cols]))]:
    the values must be a rank-1 tensor with one entry per coordinate pair,
    and every coordinate must lie inside the size. *)
Definition sparse_coo_tensor (indices : list (Z * Z)) (values : Tensor)
    (rows cols : Z) : result SparseCOO :=
  match values with
  | T1 vs =>
      if negb (Nat.eqb (length indices) (length vs)) then Raise RuntimeError
      else if negb (forallb (index_in_bounds rows cols) indices) then Raise RuntimeError
      else Ok (mkSparseCOO indices vs (Z.to_nat rows) (Z.to_nat cols))
  | _ => Raise RuntimeError
  end.

(** [m[r][c] += v] *)
Definition add_at (m : list (list Z)) (ix : Z * Z) (v : Z) : list (list Z) :=
  alter (alter (Z.add v) (Z.to_nat ix.2)) (Z.to_nat ix.1) m.

(** [m[r][c]] *)
Definition entry (m : list (list Z)) (r c : nat) : option Z :=
  m !! r ≫= λ row, row !! c.

Definition dense_step (m : list (list Z)) (e : Z * Z * Z) : list (list Z) :=
  add_at m e.1 e.2.

(** [sparse.to_dense()]: a zero tensor of the sparse tensor's size to which
    every value is added at its coordinates. *)
Definition to_dense (s : SparseCOO) : Tensor :=
  T2 (sp_cols s)
     (foldl dense_step
            (replicate (sp_rows s) (replicate (sp_cols s) 0))
            (zip (sp_indices s) (sp_values s))).

(** [F.pad(input=t, pad=(0, pad_diff, 0, 0))] on a rank-2 tensor: constant
    padding with 0 on the right of the last dimension; a negative amount
    crops, and raises when more is cropped than there is. *)
Definition F_pad_right (ncols : nat) (rows : list (list Z)) (pad_diff : Z)
    : result Tensor :=
  if 0 <=? pad_diff then
    Ok (T2 (ncols + Z.to_nat pad_diff)
           ((λ r, r ++ replicate (Z.to_nat pad_diff) 0) <$> rows))
  else if 0 <=? Z.of_nat ncols + pad_diff then
    Ok (T2 (Z.to_nat (Z.of_nat ncols + pad_diff))
           (take (Z.to_nat (Z.of_nat ncols + pad_diff)) <$> rows))
  else Raise RuntimeError.

(** *** [TabularPadding] *)

(** [TabularPadding._squeeze] *)
Definition _squeeze (tensor : Tensor) : Tensor :=
  match tensor with
  | T2 ncols rows =>
      (* len(tensor.shape) == 2: tensor.squeeze(1) drops the second
         dimension when, and only when, it has size 1 *)
      if Nat.eqb ncols 1 then T1 (concat rows) else tensor
  | _ => tensor
  end.

(** [TabularPadding._get_indices], on the rank-1 tensors it is given. *)
Definition _get_indices (offsets diff_offsets : list Z) : result (list (Z * Z)) :=
  row_ids ← arange (Z.of_nat (length offsets) - 1);
  row_ids_repeated ← repeat_interleave row_ids diff_offsets;
  row_offset_repeated ← repeat_interleave (removelast offsets) diff_offsets;
  idx ← arange (Z.of_nat (length row_offset_repeated));
  let col_ids := zip_with Z.sub idx row_offset_repeated in
  Ok (zip row_ids_repeated col_ids).

(** [TabularPadding._pad_dense_tensor] *)
Definition _pad_dense_tensor (tensor : Tensor) (length : Z) : result Tensor :=
  match tensor with
  | T2 ncols rows =>
      let pad_diff := length - Z.of_nat ncols in
      F_pad_right ncols rows pad_diff
  | _ => Ok tensor
  end.

(** [TabularPadding._pad_ragged_tensor], with the method that builds the
    coordinates, [self._get_indices], as an argument: Python looks it up on
    [self] at the call. *)
Definition _pad_ragged_tensor_with
    (get_indices : list Z → list Z → result (list (Z * Z)))
    (values offsets : Tensor) (padding_length : Z) : result Tensor :=
  let values := _squeeze values in
  let offsets := _squeeze offsets in
  len ← tensor_len offsets;
  let num_rows := len - 1 in
  diff_offsets ← diff_first offsets;
  max_length ← torch_max diff_offsets;
  match offsets, diff_offsets with
  | T1 offs, T1 diffs =>
      indices ← get_indices offs diffs;
      sparse_tensor ← sparse_coo_tensor indices values num_rows max_length;
      _pad_dense_tensor (to_dense sparse_tensor) padding_length
  | _, _ =>
      (* offsets of rank 2 after squeezing: repeat_interleave refuses the
         rank-2 repeats *)
      Raise RuntimeError
  end.

Definition _pad_ragged_tensor : Tensor → Tensor → Z → result Tensor :=
  _pad_ragged_tensor_with _get_indices.

(** [(val != padding_idx).sum(-1)]: the number of entries other than the
    padding index along the last dimension. *)
Definition count_nonpad (padding_idx : Z) (xs : list Z) : Z :=
  Z.of_nat (length (filter (λ x, x ≠ padding_idx) xs)).

Definition ne_sum_last (padding_idx : Z) (val : Tensor) : Tensor :=
  match val with
  | T0 x => T0 (count_nonpad padding_idx [x])
  | T1 xs => T0 (count_nonpad padding_idx xs)
  | T2 _ rows => T1 (count_nonpad padding_idx <$> rows)
  end.

(** Broadcasting: a tensor of rank below two is given leading dimensions of
    size 1; two sizes are compatible when they are equal or one of them
    is 1. *)
Definition shape2 (t : Tensor) : nat * nat :=
  match t with
  | T0 _ => (1, 1)%nat
  | T1 xs => (1, length xs)%nat
  | T2 c rows => (length rows, c)
  end.

Definition get2 (t : Tensor) (i j : nat) : Z :=
  match t with
  | T0 x => x
  | T1 xs => xs !!! j
  | T2 _ rows => (rows !!! i) !!! j
  end.

Definition broadcast_dim (a b : nat) : option nat :=
  if Nat.eqb a b then Some a
  else if Nat.eqb a 1 then Some b
  else if Nat.eqb b 1 then Some a
  else None.

Definition bget (t : Tensor) (i j : nat) : Z :=
  get2 t (if Nat.eqb (shape2 t).1 1 then 0%nat else i)
         (if Nat.eqb (shape2 t).2 1 then 0%nat else j).

(** [torch.all(x == y)]: raises when the shapes cannot be broadcast. *)
Definition all_eq (x y : Tensor) : result bool :=
  match broadcast_dim (shape2 x).1 (shape2 y).1,
        broadcast_dim (shape2 x).2 (shape2 y).2 with
  | Some r, Some c =>
      Ok (forallb (λ i, forallb (λ j, bget x i j =? bget y i j) (seq 0 c)) (seq 0 r))
  | _, _ => Raise RuntimeError
  end.

(** [torch.all(torch.stack(flags))]: [torch.stack] raises on an empty
    list. *)
Definition all_stack (flags : list bool) : result bool :=
  match flags with
  | [] => Raise RuntimeError
  | _ => Ok (forallb id flags)
  end.

Record Batch : Type := mkBatch {
  features : dict Tensor;
  targets : option (dict Tensor);
  sequences : option (dict Tensor)    (* Sequence(lengths) *)
}.

Record TabularPadding : Type := mkTabularPadding {
  schema : Schema;
  max_sequence_length : option Z
}.

(** The attributes [__init__] derives from the schema. *)
Definition tp_features (self : TabularPadding) : list string :=
  column_names (schema self).
Definition sparse_features (self : TabularPadding) : list string :=
  column_names (select_by_tag SEQUENCE (schema self)).
Definition padding_idx (self : TabularPadding) : Z := 0.

(** [TabularPadding._get_sequence_lengths] *)
Definition _get_sequence_lengths (self : TabularPadding)
    (sequences : dict Tensor) : result (dict Tensor) :=
  foldM_result
    (λ seq_inputs_lengths kv,
       let '(key, val) := kv in
       if endswith key "__offsets" then
         d ← diff_first val;
         Ok (dict_set (drop_suffix key "__offsets") d seq_inputs_lengths)
       else if str_in key (sparse_features self) then
         Ok (dict_set key (ne_sum_last (padding_idx self) val) seq_inputs_lengths)
       else Ok seq_inputs_lengths)
    [] sequences.

(** The first loop of [forward]: the longest row among the offsets
    columns of the batch. *)
Definition batch_max_sequence_length (feats : dict Tensor) : result Z :=
  foldM_result
    (λ batch_max kv,
       let '(key, val) := kv in
       if endswith key "__offsets" then
         d ← diff_first val;
         max_row_length ← torch_max d;
         Ok (Z.max max_row_length batch_max)
       else Ok batch_max)
    0 feats.

(** The padding length [forward] uses: [if not _max_sequence_length] holds
    for [None] and for [0]. *)
Definition padding_length (self : TabularPadding) (feats : dict Tensor) : result Z :=
  match max_sequence_length self with
  | Some l => if l =? 0 then batch_max_sequence_length feats else Ok l
  | None => batch_max_sequence_length feats
  end.

Definition seq_length_message : string :=
  "The sequential inputs must have the same length for each row in the batch, but they are different".

(** The check of [forward] on the lengths of the sequential inputs. *)
Definition check_seq_shapes (seq_shapes : list Tensor) : result unit :=
  flags ← mapM_result (λ x, all_eq x (seq_shapes !!! 0%nat)) seq_shapes;
  same ← all_stack flags;
  if negb same then Raise (ValueError seq_length_message) else Ok ().

(** One round of the loop of [forward] over [batch.features]. *)
Definition pad_feature (self : TabularPadding) (feats seq_inputs_lengths : dict Tensor)
    (_max_sequence_length : Z) (batch_padded : dict Tensor) (kv : string * Tensor)
    : result (dict Tensor) :=
  let '(key, value) := kv in
  if endswith key "__offsets" then
    let col_name := drop_suffix key "__offsets" in
    if str_in col_name (tp_features self) then
      values ← dict_item (col_name +:+ "__values") feats;
      padded_values ← _pad_ragged_tensor values value _max_sequence_length;
      Ok (dict_set col_name padded_values batch_padded)
    else Ok batch_padded
  else if endswith key "__values" then Ok batch_padded
  else
    let col_name := key in
    if str_in col_name (tp_features self)
       && bool_decide (is_Some (dict_get col_name seq_inputs_lengths)) then
      padded ← _pad_dense_tensor value _max_sequence_length;
      Ok (dict_set col_name padded batch_padded)
    else Ok batch_padded.

(** One round of the loop of [forward] over [batch.targets]. *)
Definition pad_target (tgts : dict Tensor) (_max_sequence_length : Z)
    (targets_padded : dict Tensor) (kv : string * Tensor) : result (dict Tensor) :=
  let '(key, value) := kv in
  if endswith key "__offsets" then
    let col_name := drop_suffix key "__offsets" in
    values ← dict_item (col_name +:+ "__values") tgts;
    padded_values ← _pad_ragged_tensor values value _max_sequence_length;
    Ok (dict_set col_name padded_values targets_padded)
  else if endswith key "__values" then Ok targets_padded
  else Ok (dict_set key value targets_padded).

(** [TabularPadding.forward]; its argument [inputs] is not used. *)
Definition forward (self : TabularPadding) (inputs : dict Tensor) (batch : Batch)
    : result Batch :=
  _max_sequence_length ← padding_length self (features batch);
  seq_inputs_lengths ← _get_sequence_lengths self (features batch);
  let seq_shapes := dict_values seq_inputs_lengths in
  _ ← check_seq_shapes seq_shapes;
  batch_padded ←
    foldM_result (pad_feature self (features batch) seq_inputs_lengths _max_sequence_length)
                 [] (features batch);
  targets_padded ←
    match targets batch with
    | None => Ok None
    | Some tgts => Some <$> foldM_result (pad_target tgts _max_sequence_length) [] tgts
    end;
  Ok (mkBatch batch_padded targets_padded (Some seq_inputs_lengths)).

(** *** Ragged encodings

    A ragged column with rows [rs] is stored as the concatenation of its rows
    and the offsets at which the rows start, beginning at 0 and ending at
    the number of values. *)

Fixpoint offsets_from (b : Z) (rs : list (list Z)) : list Z :=
  b :: match rs with
       | [] => []
       | r :: rs' => offsets_from (b + Z.of_nat (length r)) rs'
       end.

(** Row lengths, row starts and entry coordinates of rows [rs]; [coords s]
    numbers the rows from [s]. *)
Definition lens (rs : list (list Z)) : list Z := (λ r, Z.of_nat (length r)) <$> rs.

Fixpoint starts (b : Z) (rs : list (list Z)) : list Z :=
  match rs with
  | [] => []
  | r :: rs' => b :: starts (b + Z.of_nat (length r)) rs'
  end.

Fixpoint coords (s : Z) (rs : list (list Z)) : list (Z * Z) :=
  match rs with
  | [] => []
  | r :: rs' => ((λ j, (s, j)) <$> seqZ 0 (Z.of_nat (length r))) ++ coords (s + 1) rs'
  end.

(** What [repeat_interleave] returns when it does not raise. *)
Definition ri (xs reps : list Z) : list Z :=
  concat (zip_with (λ x r, replicate (Z.to_nat r) x) xs reps).

Definition ragged_values (rs : list (list Z)) : list Z := concat rs.
Definition ragged_offsets (rs : list (list Z)) : list Z := offsets_from 0 rs.

(** The rows a values tensor is cut into by the row lengths. *)
Fixpoint split_rows (vs : list Z) (ds : list nat) : list (list Z) :=
  match ds with
  | [] => []
  | d :: ds' => take d vs :: split_rows (drop d vs) ds'
  end.

Definition ragged_rows (values offsets : list Z) : list (list Z) :=
  split_rows values (Z.to_nat <$> diff_list offsets).

(** [values], [offsets] encode a ragged column of at least one row: the
    offsets start at 0, never decrease, and end at the number of values. *)
Definition ragged_wf (values offsets : list Z) : bool :=
  bool_decide (offsets !! 0%nat = Some 0)
  && (2 <=? length offsets)%nat
  && forallb (λ d, 0 <=? d) (diff_list offsets)
  && bool_decide (last offsets = Some (Z.of_nat (length values))).

(** The longest row. *)
Definition max_row_length (offsets : list Z) : Z :=
  match diff_list offsets with
  | [] => 0
  | d :: ds => max_listZ d ds
  end.

(** All rows have the same length. *)
Definition rows_equal_length (offsets : list Z) : bool :=
  forallb (λ d, d =? max_row_length offsets) (diff_list offsets).

(** The padding of [values], [offsets] does not depend on how the
    coordinates are built: whatever [self._get_indices] is, the result is
    the same. *)
Definition bypasses_coordinates (values offsets : Tensor) (padding_length : Z) : Prop :=
  ∀ get_indices,
    _pad_ragged_tensor_with get_indices values offsets padding_length
    = _pad_ragged_tensor values offsets padding_length.

Definition is_ValueError {A} (r : result A) : bool :=
  match r with Raise (ValueError _) => true | _ => false end.

(** A batch of [n] rows: every offsets column is a rank-1 tensor of [n + 1]
    offsets and every dense sequence column a rank-2 tensor of [n] rows. *)
Definition column_aligned (self : TabularPadding) (n : nat) (kv : string * Tensor) : bool :=
  if endswith kv.1 "__offsets" then
    match kv.2 with T1 offs => Nat.eqb (length offs) (S n) | _ => false end
  else if str_in kv.1 (sparse_features self) then
    match kv.2 with T2 _ rows => Nat.eqb (length rows) n | _ => false end
  else true.

Definition batch_aligned (self : TabularPadding) (n : nat) (feats : dict Tensor) : bool :=
  forallb (column_aligned self n) feats.

(** A rank-1 tensor of [n] entries. *)
Definition is_vec (n : nat) (t : Tensor) : Prop :=
  ∃ l, t = T1 l ∧ length l = n.

Definition all_identical (ts : list Tensor) : Prop :=
  ∀ x y, x ∈ ts → y ∈ ts → x = y.

(** The name under which a round of the loop of [forward] over the features
    can store a tensor. *)
Definition stores_under (key : string) : option string :=
  if endswith key "__offsets" then Some (drop_suffix key "__offsets")
  else if endswith key "__values" then None
  else Some key.

(** The row lengths of all offsets columns of a batch. *)
Definition observed_row_lengths (feats : dict Tensor) : list Z :=
  feats ≫= λ kv,
    if endswith kv.1 "__offsets" then
      match diff_first kv.2 with Ok d => entries d | Raise _ => [] end
    else [].

(** *** The padding algorithm as the specification words it

    Per-row lengths from the offsets; coordinate pairs by repeat-interleaving
    the row indices and the row offsets by the lengths; a sparse tensor over
    (rows, longest row); its dense form; padding on the right up to [L]
    columns. *)

(** Step 1: the length of row [i] is [offsets[i+1] - offsets[i]]. *)
Definition spec_row_lengths (offsets : list Z) : list Z :=
  (λ i, offsets !!! S i - offsets !!! i) <$> seq 0 (length offsets - 1).

(** Entry [i] of [xs], [lengths[i]] times, for every row [i]. *)
Definition spec_repeat_interleave (xs lengths : list Z) : list Z :=
  zip xs lengths ≫= λ p, replicate (Z.to_nat p.2) p.1.

(** Step 2: the row of the [k]-th value is the repeated row index, its column
    is [k] minus the repeated row offset. *)
Definition spec_coordinates (offsets lengths : list Z) : list (Z * Z) :=
  let rows := spec_repeat_interleave (Z.of_nat <$> seq 0 (length lengths)) lengths in
  let row_offsets := spec_repeat_interleave (take (length lengths) offsets) lengths in
  zip rows (imap (λ k o, Z.of_nat k - o) row_offsets).

(** Step 3: the sparse tensor holds each value at its coordinates. *)
Definition spec_sparse (coordinates : list (Z * Z)) (values : list Z)
    : list (Z * Z * Z) :=
  zip coordinates values.

Definition sumZ (xs : list Z) : Z := foldr Z.add 0 xs.

(** Step 4: the dense tensor has, at [(r, c)], the sum of the values stored
    at [(r, c)], which is 0 where nothing is stored. *)
Definition spec_densify (rows cols : nat) (sparse : list (Z * Z * Z))
    : list (list Z) :=
  (λ r, (λ c, sumZ (snd <$> filter (λ e, e.1 = (Z.of_nat r, Z.of_nat c)) sparse))
          <$> seq 0 cols) <$> seq 0 rows.

(** Step 5: every row is filled with zeros on the right up to [L] entries. *)
Definition spec_pad_right (L : nat) (dense : list (list Z)) : list (list Z) :=
  (λ row, row ++ replicate (L - length row) 0) <$> dense.

Definition spec_pad_ragged (values offsets : list Z) (L : Z) : Tensor :=
  let lengths := spec_row_lengths offsets in
  let coordinates := spec_coordinates offsets lengths in
  let rows := (length offsets - 1)%nat in
  let cols := Z.to_nat (max_listZ 0 lengths) in
  T2 (Z.to_nat L)
     (spec_pad_right (Z.to_nat L)
        (spec_densify rows cols (spec_sparse coordinates values))).

End Torch.


(** ** Negative sampling ([merlin/models/tf/sampling/base.py]) *)

Module Sampling.

(** A tensor is the list of its rows along the first dimension. *)
Abbreviation TFTensor Row := (list Row) (only parsing).

Section sampling.
Context {Row : Type}.
Abbreviation TFTensor := (list Row) (only parsing).

(** [tf.shape(t)[0]] *)
Definition first_dim (t : TFTensor) : nat := length t.

Record ItemCollection : Type := mkItemCollection {
  ids : TFTensor;
  metadata : dict TFTensor
}.

(** *** [ItemSampler] *)

(** The abstract methods; [add] changes the sampler. *)
Class ItemSampler (St : Type) : Type := {
  add : St → ItemCollection → result St;
  sample : St → result ItemCollection
}.

(** [ItemSampler.call] *)
Definition call {St} {sampler : ItemSampler St} (self : St) (items : ItemCollection)
    (training : bool) : result (St * ItemCollection) :=
  self ← (if training then add self items else Ok self);
  items ← sample self;
  Ok (self, items).

(** [tf.assert_equal(x, y, message)] *)
Definition assert_equal (x y : nat) : result unit :=
  if Nat.eqb x y then Ok () else Raise InvalidArgumentError.

(** [ItemSampler._check_inputs_batch_sizes] *)
Definition _check_inputs_batch_sizes (items : ItemCollection) : result unit :=
  let embeddings_batch_size := first_dim (ids items) in
  foldM_result
    (λ _ feat, let metadata_feat_batch_size := first_dim feat.2 in
               assert_equal embeddings_batch_size metadata_feat_batch_size)
    () (metadata items).

(** A sampler that keeps the collection it was given last; its [add] does
    not look at the batch sizes. *)
Definition keep_last : ItemSampler ItemCollection :=
  {| add := λ _ items, Ok items; sample := λ self, Ok self |}.

(** *** [AddRandomNegativesToBatch] *)

(** [tf.random.uniform] draws from a generator, which it advances. *)
Context {Gen : Type}.
Variable uniform : Gen → option Z → nat → Z → list Z * Gen.

(** What tensorflow documents of [tf.random.uniform(shape, maxval=m,
    dtype=tf.int32)]: as many draws as asked for, each in [[0, m)]. *)
Definition uniform_contract : Prop :=
  ∀ g seed k m,
    length (uniform g seed k m).1 = k
    ∧ (0 < m → Forall (λ x, 0 ≤ x < m) (uniform g seed k m).1).

(** [tf.random.uniform((k,), maxval=maxval, dtype=tf.int32, seed=seed)]:
    raises when draws are asked for from an empty range. *)
Definition random_uniform (g : Gen) (seed : option Z) (k : nat) (maxval : Z)
    : result (list Z * Gen) :=
  if (0 <? k)%nat && (maxval <=? 0) then Raise InvalidArgumentError
  else Ok (uniform g seed k maxval).

(** [ItemCollection.from_features], which is not part of this file. *)
Variable from_features : Schema → dict TFTensor → result ItemCollection.

Record AddRandomNegativesToBatch : Type := mkAddRandomNegatives {
  n_per_positive : nat;
  item_schema : Schema;     (* schema.select_by_tag(Tags.ITEM) *)
  seed : option Z
}.

(** [AddRandomNegativesToBatch.__init__] *)
Definition new_AddRandomNegativesToBatch (schema : Schema) (n_per_positive : nat)
    (seed : option Z) : AddRandomNegativesToBatch :=
  mkAddRandomNegatives n_per_positive (select_by_tag ITEM schema) seed.

(** [AddRandomNegativesToBatch.sample_ids] *)
Definition sample_ids (self : AddRandomNegativesToBatch) (g : Gen)
    (batch_size : nat) (items : ItemCollection) : result (list Z * Gen) :=
  random_uniform g (seed self) (n_per_positive self * batch_size)
                 (Z.of_nat batch_size).

(** [tf.gather(val, ids)]: an index outside the rows raises. *)
Definition gather (val : TFTensor) (ids : list Z) : result TFTensor :=
  mapM_result
    (λ i, if i <? 0 then Raise InvalidArgumentError
          else match val !! Z.to_nat i with
               | Some row => Ok row
               | None => Raise InvalidArgumentError
               end)
    ids.

(** The rows [tf.gather(val, ids)] returns when it does not raise. *)
Definition gathered (val : TFTensor) (ids : list Z) : TFTensor :=
  omap (λ i, val !! Z.to_nat i) ids.

(** [tf.repeat(val, repeats, axis=0)] *)
Definition tf_repeat (val : TFTensor) (repeats : nat) : TFTensor :=
  val ≫= replicate repeats.

(** What [call] stores under [name] when [tf.gather] does not raise. *)
Definition output_of (self : AddRandomNegativesToBatch) (ids : list Z)
    (name : string) (val : TFTensor) : TFTensor :=
  if str_in name (column_names (item_schema self))
  then val ++ gathered val ids
  else tf_repeat val (n_per_positive self + 1).

(** One round of the loop of [call] over the features. *)
Definition add_negatives (self : AddRandomNegativesToBatch) (sampled_ids : list Z)
    (outputs : dict TFTensor) (kv : string * TFTensor) : result (dict TFTensor) :=
  let '(name, val) := kv in
  let item_cols := column_names (item_schema self) in
  if str_in name item_cols then
    negatives ← gather val sampled_ids;
    Ok (dict_set name (val ++ negatives) outputs)
  else
    Ok (dict_set name (tf_repeat val (n_per_positive self + 1)) outputs).

(** [AddRandomNegativesToBatch.call] *)
Definition negatives_call (self : AddRandomNegativesToBatch) (g : Gen)
    (inputs : dict TFTensor) : result (dict TFTensor * Gen) :=
  first ← match dict_values inputs with
          | [] => Raise IndexError
          | t :: _ => Ok t
          end;
  let batch_size := first_dim first in
  items ← from_features (item_schema self) inputs;
  '(sampled_ids, g) ← sample_ids self g batch_size items;
  outputs ← foldM_result (add_negatives self sampled_ids) [] inputs;
  Ok (outputs, g).

(** [tf.concat(values, axis=0)]: the rows of the tensors, in order; an
    empty list of tensors raises. *)
Definition tf_concat (values : list TFTensor) : result TFTensor :=
  match values with
  | [] => Raise InvalidArgumentError
  | _ => Ok (concat values)
  end.

(** [_list_to_tensor] *)
Definition _list_to_tensor (input_list : list TFTensor) : result TFTensor :=
  if Nat.eqb (length input_list) 1 then
    match input_list with
    | t :: _ => Ok t              (* input_list[0] *)
    | [] => Raise IndexError
    end
  else tf_concat input_list.

End sampling.

(** A generator for examples: a counter, reduced modulo the range. *)
Definition counter_uniform (g : Z) (seed : option Z) (k : nat) (m : Z) : list Z * Z :=
  ((λ i, (g + Z.of_nat i) `mod` m) <$> seq 0 k, g + Z.of_nat k).

(** [from_features] for examples: the first item column gives the ids, the
    other item columns the metadata. *)
Definition select_items {Row} (schema : Schema) (inputs : dict (TFTensor Row))
    : result (@ItemCollection Row) :=
  match column_names schema with
  | [] => Raise IndexError
  | id_col :: others =>
      ids ← dict_item id_col inputs;
      meta ← mapM_result (λ c, t ← dict_item c inputs; Ok (c, t)) others;
      Ok (mkItemCollection ids meta)
  end.

End Sampling.

(** ** Transformer blocks ([merlin/models/tf/blocks/transformer.py]) *)

Module Transformer.

Section transformer.
(** Dense and ragged tensors, the values layers exchange, and the keyword
    arguments of a call. *)
Context {T R V K : Type}.

(** [ragged.to_tensor()] *)
Variable to_tensor : R → T.
(** [{"inputs_embeds": inputs}] *)
Variable inputs_embeds : T → V.

Inductive Inputs : Type :=
  | Dense (t : T)
  | Ragged (r : R).

(** A layer is called on a value with the keyword arguments, and can
    raise. *)
Definition Layer : Type := K → V → result V.

(** Modelled from the spec: [combinators.call_sequentially] is not part of
    these files.  The block "chains pre/post-processing steps": each layer
    is called on the output of the one before it, the first on the
    inputs. *)
Definition call_sequentially (layers : list Layer) (inputs : V) (kwargs : K)
    : result V :=
  foldM_result (λ outputs layer, layer kwargs outputs) inputs layers.

Record TransformerBlock : Type := mkTransformerBlock {
  transformer : Layer;
  pre : option Layer;
  post : option Layer
}.

(** [TransformerBlock.to_call], as the list of what it yields. *)
Definition to_call (self : TransformerBlock) : list Layer :=
  (match pre self with Some p => [p] | None => [] end)
  ++ [transformer self]
  ++ (match post self with Some p => [p] | None => [] end).

(** [TransformerBlock.call] *)
Definition call (self : TransformerBlock) (inputs : Inputs) (kwargs : K) : result V :=
  let inputs :=
    match inputs with
    | Ragged r => to_tensor r      (* isinstance(inputs, tf.RaggedTensor) *)
    | Dense t => t
    end in
  let inputs := inputs_embeds inputs in
  call_sequentially (to_call self) inputs kwargs.

End transformer.

End Transformer.

(** *** Building a transformer block *)

Module TransformerBuild.
Import Transformer.

Section build.
Context {V K Config : Type}.

Abbreviation Layer := (@Transformer.Layer V K).

(** [x.name] on a value a layer returns; it raises when [x] has no such
    attribute. *)
Variable getattr : V → string → result V.
(** The tuple [(a, b)] *)
Variable tuple : V → V → V.

(** [SelectHFOutput(output_fn)]: [call] returns [output_fn(inputs)]. *)
Definition SelectHFOutput (output_fn : V → result V) : Layer :=
  λ _ inputs, output_fn inputs.

(** The members of the enumeration [HFOutput] *)
Inductive HFOutput : Type :=
  | last_hidden_state
  | pooler_output
  | hidden_state
  | attentions
  | last_state_and_attention.

(** [member.value] *)
Definition HFOutput_value (member : HFOutput) : Layer :=
  match member with
  | last_hidden_state => SelectHFOutput (λ x, getattr x "last_hidden_state")
  | pooler_output => SelectHFOutput (λ x, getattr x "pooler_output")
  | hidden_state => SelectHFOutput (λ x, getattr x "hidden_states")
  | attentions => SelectHFOutput (λ x, getattr x "attentions")
  | last_state_and_attention =>
      SelectHFOutput (λ x, a ← getattr x "last_hidden_state";
                           b ← getattr x "attentions";
                           Ok (tuple a b))
  end.

(** The members by name; [HFOutput[name]] is [dict_item name HFOutput_members]. *)
Definition HFOutput_members : dict HFOutput :=
  [("last_hidden_state", last_hidden_state);
   ("pooler_output", pooler_output);
   ("hidden_state", hidden_state);
   ("attentions", attentions);
   ("last_state_and_attention", last_state_and_attention)].

(** [TransformerPrepare.call] *)
Definition TransformerPrepare_call : Layer := λ _ _, Raise NotImplementedError.

(** An attribute of a HuggingFace model: a keras layer or something else. *)
Inductive Attr : Type :=
  | AttrLayer (layer : Layer)
  | AttrOther.

Definition attr_layer (v : Attr) : option Layer :=
  match v with
  | AttrLayer layer => Some layer
  | AttrOther => None
  end.

(** [get_tf_main_layer], on [hf_model.__dict__] *)
Definition get_tf_main_layer (hf_model : dict Attr) : result Layer :=
  match omap (λ kv, attr_layer kv.2) hf_model with
  | main_layer :: _ => Ok main_layer
  | [] => Raise IndexError
  end.

(** The argument [transformer]: a configuration, a pre-trained model or
    another layer. *)
Inductive TransformerBody : Type :=
  | OfConfig (config : Config)
  | OfModel (hf_model : dict Attr)
  | OfLayer (layer : Layer).

(** The argument [post]: a name, a layer or [None]. *)
Inductive PostArg : Type :=
  | PostName (name : string)
  | PostLayer (layer : Layer)
  | PostNone.

(** The argument [pre]: [None], a subclass of [TransformerPrepare] (given
    by what it constructs from the transformer layer), another class
    (which is kept as it is), or an instance of a layer. *)
Inductive PreArg : Type :=
  | PreNone
  | PrepareClass (new : Layer → result Layer)
  | OtherClass (cls : Layer)
  | PreInstance (layer : Layer).

(** [transformers.TF_MODEL_MAPPING[config.__class__](config)]: the model
    class of the configuration, called on it. *)
Variable model_of_config : Config → result (dict Attr).

(** [TransformerBlock.__init__]; [issubclass] raises a [TypeError] when
    its first argument is not a class. *)
Definition new_TransformerBlock (transformer : TransformerBody) (post : PostArg)
    (pre : PreArg) : result (@TransformerBlock V K) :=
  transformer ←
    match transformer with
    | OfConfig config => model ← model_of_config config; get_tf_main_layer model
    | OfModel hf_model => get_tf_main_layer hf_model
    | OfLayer layer => Ok layer
    end;
  post ←
    match post with
    | PostName name =>
        member ← dict_item name HFOutput_members; Ok (Some (HFOutput_value member))
    | PostLayer layer => Ok (Some layer)
    | PostNone => Ok None
    end;
  pre ←
    match pre with
    | PreNone => Ok None
    | PrepareClass new => p ← new transformer; Ok (Some p)
    | OtherClass cls => Ok (Some cls)
    | PreInstance _ => Raise TypeError
    end;
  Ok (mkTransformerBlock transformer pre post).

End build.

End TransformerBuild.

(** ** Tabular inputs ([merlin/models/torch/inputs/tabular.py]) *)

Module TabularInput.

(** Modelled from the spec: [RouterBlock] and [Registry] are not part of
    these files.  A block holds the routes attached to it, each a tag with
    the module its columns go through when there is one, and the modules
    appended after the routes; the registry "maps a string key to a
    configuration function", and looking up a key that was not registered
    gives [None]. *)
Record Block : Type := mkBlock {
  block_schema : Schema;
  routes : list (Tags * option string);
  appended : list string
}.

Definition Initializer : Type := Block → result Block.

Definition Registry : Type := gmap string Initializer.

(** [registry.get(name)] *)
Definition registry_get (initializers : Registry) (name : string) : option Initializer :=
  initializers !! name.

(** [registry.register(name)(fn)] *)
Definition register (name : string) (fn : Initializer) (initializers : Registry)
    : Registry :=
  <[name := fn]> initializers.

(** [block.add_route(tag, module)] *)
Definition add_route (tag : Tags) (module : option string) (block : Block) : Block :=
  mkBlock (block_schema block) (routes block ++ [(tag, module)]) (appended block).

(** [block.append(module)] *)
Definition append (module : string) (block : Block) : Block :=
  mkBlock (block_schema block) (routes block) (appended block ++ [module]).

(** [RouterBlock.__init__(schema)] *)
Definition new_router (schema : Schema) : Block := mkBlock schema [] [].

(** The argument [init]: a name or an initializer. *)
Inductive InitArg : Type :=
  | InitName (name : string)
  | InitFn (fn : Initializer).

(** The initializer [defaults] of the file. *)
Definition defaults : Initializer :=
  λ block,
    let block := add_route CONTINUOUS None block in
    Ok (add_route CATEGORICAL (Some "EmbeddingTables(seq_combiner=mean)") block).

(** The registry after the file is loaded:
    [@TabularInputBlock.register_init("defaults")]. *)
Definition initializers : Registry := register "defaults" defaults ∅.

(** [TabularInputBlock.__init__].  [if init:] is false for [None] and for the
    empty string; in the message, [init] is what [get] returned. *)
Definition TabularInputBlock (initializers : Registry) (schema : Schema)
    (init : option InitArg) (agg : option string) : result Block :=
  let self := new_router schema in
  self ←
    match init with
    | None => Ok self
    | Some (InitName name) =>
        if String.eqb name "" then Ok self
        else
          match registry_get initializers name with
          | None => Raise (ValueError "Initializer None not found.")
          | Some init => init self
          end
    | Some (InitFn init) => init self
    end;
  match agg with
  | None => Ok self
  | Some a => if String.eqb a "" then Ok self else Ok (append a self)
  end.

(** Whether [needle] occurs in [s]. *)
Fixpoint contains (needle s : string) : bool :=
  String.prefix needle s
  || match s with
     | EmptyString => false
     | String _ s' => contains needle s'
     end.

End TabularInput.

(** * Properties *)

Lemma bind_Ok {A B} (m : result A) (f : A → result B) (b : B) :
  m ≫= f = Ok b ↔ ∃ a, m = Ok a ∧ f a = Ok b.
Proof.
  destruct m as [a|e]; simpl.
  - split; [intros H; by exists a | intros (a' & [= ->] & H); done].
  - split; [done | intros (a' & [=] & _)].
Qed.

(** ** Dictionaries *)

Section dicts.
Context {V : Type}.
Implicit Types (d : dict V) (k : string) (v : V).

Lemma dict_get_None k d : dict_get k d = None ↔ k ∉ dict_keys d.
Proof.
  unfold dict_keys. induction d as [|[k' v'] d IH]; simpl.
  - split; [intros _; apply not_elem_of_nil | done].
  - destruct (String.eqb_spec k k') as [->|Hne].
    + split; [done | intros []; left].
    + rewrite IH, not_elem_of_cons. tauto.
Qed.

Lemma dict_set_fresh k v d : k ∉ dict_keys d → dict_set k v d = d ++ [(k, v)].
Proof.
  unfold dict_keys. induction d as [|[k' v'] d IH]; simpl; [done |].
  rewrite not_elem_of_cons. intros [Hne Hnot].
  apply String.eqb_neq in Hne as ->. by rewrite IH.
Qed.

Lemma dict_get_fmap {W} (f : string → V → W) k d :
  dict_get k ((λ kv, (kv.1, f kv.1 kv.2)) <$> d) = f k <$> dict_get k d.
Proof.
  induction d as [|[k' v'] d IH]; simpl; [done |].
  destruct (String.eqb_spec k k') as [->|Hne]; [done | apply IH].
Qed.

Lemma dict_get_elem_of k v d : dict_get k d = Some v → (k, v) ∈ d.
Proof.
  induction d as [|[k' v'] d IH]; simpl; [done |].
  destruct (String.eqb_spec k k') as [->|Hne].
  - intros [= ->]. left.
  - intros H. right. by apply IH.
Qed.
Lemma dict_get_set_eq k v d : dict_get k (dict_set k v d) = Some v.
Proof.
  induction d as [|[k' v'] d IH]; simpl; [by rewrite String.eqb_refl |].
  destruct (String.eqb_spec k k') as [->|Hne]; simpl.
  - by rewrite String.eqb_refl.
  - apply String.eqb_neq in Hne as ->. exact IH.
Qed.

Lemma dict_get_set_ne k k' v d : k ≠ k' → dict_get k (dict_set k' v d) = dict_get k d.
Proof.
  intros Hne. induction d as [|[k0 v0] d IH]; simpl.
  - by apply String.eqb_neq in Hne as ->.
  - destruct (String.eqb_spec k' k0) as [->|Hne0]; simpl.
    + by apply String.eqb_neq in Hne as ->.
    + by rewrite IH.
Qed.

End dicts.

Lemma foldM_result_app {A B} (f : B → A → result B) (b : B) (l1 l2 : list A) :
  foldM_result f b (l1 ++ l2) = foldM_result f b l1 ≫= λ b', foldM_result f b' l2.
Proof.
  revert b; induction l1 as [|a l1 IH]; intros b; [done |].
  simpl. destruct (f b a); simpl; [apply IH | done].
Qed.

(** ** Strings *)

Lemma substring_all (s : string) : String.substring 0 (String.length s) s = s.
Proof. induction s as [|c s IH]; [done |]. simpl. by rewrite IH. Qed.

Lemma substring_split (s : string) (k : nat) :
  (k ≤ String.length s)%nat →
  String.substring 0 k s +:+ String.substring k (String.length s - k) s = s.
Proof.
  revert k; induction s as [|c s IH]; intros k Hk.
  - simpl in Hk. assert (k = 0%nat) as -> by lia. done.
  - destruct k as [|k].
    + simpl. change (String c (String.substring 0 (String.length s) s) = String c s).
      by rewrite substring_all.
    + simpl in *.
      change (String c (String.substring 0 k s
                +:+ String.substring k (String.length s - k) s) = String c s).
      by rewrite IH by lia.
Qed.

Lemma endswith_drop_suffix (s suffix : string) :
  endswith s suffix = true → drop_suffix s suffix +:+ suffix = s.
Proof.
  unfold endswith, drop_suffix. intros [Hle Heq]%andb_true_iff.
  apply Nat.leb_le in Hle. apply String.eqb_eq in Heq.
  pose proof (substring_split s (String.length s - String.length suffix)) as H.
  replace (String.length s - (String.length s - String.length suffix))%nat
    with (String.length suffix) in H by lia.
  rewrite Heq in H. apply H. lia.
Qed.

Lemma drop_suffix_inj (s s' suffix : string) :
  endswith s suffix = true → endswith s' suffix = true →
  drop_suffix s suffix = drop_suffix s' suffix → s = s'.
Proof.
  intros H H' Heq.
  by rewrite <- (endswith_drop_suffix s suffix H),
             <- (endswith_drop_suffix s' suffix H'), Heq.
Qed.


Module TorchFacts.
Import Torch.

(** ** The ragged encoding *)

Section ragged.
Implicit Types (rs : list (list Z)) (r : list Z) (b s : Z).

Lemma length_offsets_from b rs : length (offsets_from b rs) = S (length rs).
Proof. revert b; induction rs as [|r rs IH]; intros b; simpl; [done | by rewrite IH]. Qed.

Lemma removelast_offsets_from b rs : removelast (offsets_from b rs) = starts b rs.
Proof.
  revert b; induction rs as [|r rs IH]; intros b; [done |].
  cbn [offsets_from starts]. rewrite <- IH.
  destruct rs; done.
Qed.

Lemma diff_offsets_from b rs : diff_list (offsets_from b rs) = lens rs.
Proof.
  unfold diff_list. rewrite removelast_offsets_from.
  revert b; induction rs as [|r rs IH]; intros b; [done |].
  cbn [offsets_from starts tail lens fmap list_fmap].
  specialize (IH (b + Z.of_nat (length r))).
  destruct rs as [|r' rs]; simpl in *; f_equal; try lia; try done.
  all: idtac.
Qed.

Lemma length_starts b rs : length (starts b rs) = length rs.
Proof. revert b; induction rs as [|r rs IH]; intros b; simpl; [done | by rewrite IH]. Qed.

Lemma length_lens rs : length (lens rs) = length rs.
Proof. unfold lens. by rewrite length_fmap. Qed.

Lemma lens_nonneg rs : forallb (λ d, 0 <=? d) (lens rs) = true.
Proof.
  induction rs as [|r rs IH]; [done |]. simpl. rewrite IH, andb_true_r. apply Z.leb_le. lia.
Qed.

Lemma repeat_interleave_lens xs rs :
  length xs = length rs →
  repeat_interleave xs (lens rs) = Ok (ri xs (lens rs)).
Proof.
  intros Hlen. unfold repeat_interleave.
  rewrite length_lens, Hlen, Nat.eqb_refl, lens_nonneg. done.
Qed.

Lemma length_ri_starts b rs :
  length (ri (starts b rs) (lens rs)) = length (concat rs).
Proof.
  revert b; induction rs as [|r rs IH]; intros b; [done |].
  unfold ri in *. simpl. rewrite !length_app, length_replicate, IH. lia.
Qed.

Lemma zip_sub_seqZ b k (n : nat) :
  zip_with Z.sub (seqZ (b + k) (Z.of_nat n)) (replicate n b) = seqZ k (Z.of_nat n).
Proof.
  revert k; induction n as [|n IH]; intros k; [done |].
  rewrite (seqZ_cons (b + k)), (seqZ_cons k) by lia. simpl.
  replace (Z.pred (Z.of_nat (S n))) with (Z.of_nat n) by lia.
  replace (Z.succ (b + k)) with (b + Z.succ k) by lia.
  rewrite IH. f_equal. lia.
Qed.

Lemma zip_replicate_l {A B} (x : A) (l : list B) :
  zip (replicate (length l) x) l = (λ y, (x, y)) <$> l.
Proof. induction l as [|y l IH]; simpl; [done | by rewrite IH]. Qed.

Lemma indices_gen rs s b :
  zip (ri (seqZ s (Z.of_nat (length rs))) (lens rs))
      (zip_with Z.sub (seqZ b (Z.of_nat (length (concat rs))))
                      (ri (starts b rs) (lens rs)))
  = coords s rs.
Proof.
  revert s b; induction rs as [|r rs IH]; intros s b; [done |].
  rewrite seqZ_cons by (simpl; lia).
  replace (Z.pred (Z.of_nat (length (r :: rs)))) with (Z.of_nat (length rs))
    by (simpl; lia).
  unfold ri in *. cbn [lens fmap list_fmap starts zip_with concat coords].
  rewrite Nat2Z.id, length_app, Nat2Z.inj_add.
  rewrite seqZ_app by lia.
  rewrite zip_with_app by (by rewrite length_seqZ, length_replicate, Nat2Z.id).
  rewrite zip_with_app.
  2:{ rewrite length_replicate, length_zip_with, length_seqZ, length_replicate. lia. }
  replace (seqZ b (Z.of_nat (length r))) with (seqZ (b + 0) (Z.of_nat (length r)))
    by (f_equal; lia).
  rewrite zip_sub_seqZ.
  f_equal.
  - rewrite <- (zip_replicate_l s). f_equal. by rewrite length_seqZ, Nat2Z.id.
  - apply (IH (Z.succ s) (b + Z.of_nat (length r))).
Qed.

Lemma get_indices_ragged rs :
  _get_indices (ragged_offsets rs) (lens rs) = Ok (coords 0 rs).
Proof.
  unfold _get_indices, ragged_offsets, arange.
  rewrite length_offsets_from, removelast_offsets_from.
  replace (Z.of_nat (S (length rs)) - 1) with (Z.of_nat (length rs)) by lia.
  destruct (Z.ltb_spec (Z.of_nat (length rs)) 0) as [?|_]; [lia |]. simpl.
  rewrite (repeat_interleave_lens (seqZ _ _)) by (by rewrite length_seqZ, Nat2Z.id).
  simpl.
  rewrite repeat_interleave_lens by apply length_starts. simpl.
  destruct (Z.ltb_spec (Z.of_nat (length (ri (starts 0 rs) (lens rs)))) 0) as [?|_];
    [lia |]. simpl.
  rewrite length_ri_starts. f_equal. apply indices_gen.
Qed.

(** *** Densification *)

Lemma length_coords s rs : length (coords s rs) = length (concat rs).
Proof.
  revert s; induction rs as [|r rs IH]; intros s; [done |].
  simpl. rewrite !length_app, length_fmap, length_seqZ, IH. lia.
Qed.

(** Writing the entries of one row, from column [length pre] on. *)
Lemma dense_row (done_ rest : list (list Z)) (pre r : list Z) (cols : nat) :
  (length pre + length r ≤ cols)%nat →
  foldl dense_step
    (done_ ++ (pre ++ replicate (cols - length pre) 0) :: rest)
    (zip ((λ j, (Z.of_nat (length done_), j))
            <$> seqZ (Z.of_nat (length pre)) (Z.of_nat (length r))) r)
  = done_ ++ (pre ++ r ++ replicate (cols - length pre - length r) 0) :: rest.
Proof.
  revert pre; induction r as [|x r IH]; intros pre Hle.
  - simpl. by rewrite Nat.sub_0_r.
  - simpl in Hle. rewrite seqZ_cons by (simpl; lia).
    replace (Z.pred (Z.of_nat (length (x :: r)))) with (Z.of_nat (length r))
      by (simpl; lia).
    cbn [fmap list_fmap zip zip_with foldl].
    unfold dense_step at 2, add_at. cbn [fst snd]. rewrite !Nat2Z.id.
    rewrite alter_app_r_alt by lia. rewrite Nat.sub_diag. cbn [alter list_alter].
    rewrite alter_app_r_alt by lia. rewrite Nat.sub_diag.
    destruct (cols - length pre)%nat as [|k] eqn:Hk; [lia |].
    cbn [replicate alter list_alter].
    replace (x + 0) with x by lia.
    specialize (IH (pre ++ [x])).
    rewrite length_app in IH. simpl in IH.
    replace (Z.succ (Z.of_nat (length pre)))
      with (Z.of_nat (length pre + 1)) by lia.
    replace (cols - (length pre + 1))%nat with k in IH by lia.
    rewrite <- (assoc_L (++) pre [x]) in IH. simpl in IH.
    rewrite IH by lia.
    by rewrite <- (assoc_L (++) pre [x]).
Qed.

Lemma dense_rows rs (done_ : list (list Z)) (cols : nat) :
  Forall (λ r, (length r ≤ cols)%nat) rs →
  foldl dense_step
    (done_ ++ replicate (length rs) (replicate cols 0))
    (zip (coords (Z.of_nat (length done_)) rs) (concat rs))
  = done_ ++ (resize cols 0 <$> rs).
Proof.
  revert done_; induction rs as [|r rs IH]; intros done_ Hall; [done |].
  apply Forall_cons in Hall as [Hr Hall].
  cbn [coords concat length replicate].
  rewrite zip_with_app by (by rewrite length_fmap, length_seqZ, Nat2Z.id).
  rewrite foldl_app.
  pose proof (dense_row done_ (replicate (length rs) (replicate cols 0)) [] r cols) as Hrow.
  simpl in Hrow. rewrite Nat.sub_0_r in Hrow. change (Z.of_nat 0) with 0 in Hrow.
  rewrite Hrow by lia.
  specialize (IH (done_ ++ [resize cols 0 r]) Hall).
  rewrite length_app in IH. simpl in IH.
  replace (Z.of_nat (length done_) + 1) with (Z.of_nat (length done_ + 1)) by lia.
  rewrite <- !(assoc_L (++) done_) in IH. simpl in IH.
  rewrite resize_ge in IH by done.
  rewrite IH, fmap_cons. by rewrite (resize_ge r) by done.
Qed.

Lemma coords_in_bounds s rs (cols : Z) :
  0 ≤ s →
  Forall (λ r, Z.of_nat (length r) ≤ cols) rs →
  forallb (index_in_bounds (s + Z.of_nat (length rs)) cols) (coords s rs) = true.
Proof.
  revert s; induction rs as [|r rs IH]; intros s Hs Hall; [done |].
  apply Forall_cons in Hall as [Hr Hall].
  cbn [coords]. rewrite forallb_app. apply andb_true_iff; split.
  - apply forallb_forall. intros [i j] Hin.
    apply in_map_iff in Hin as (j' & [= <- <-] & Hin).
    apply list_elem_of_In, elem_of_seqZ in Hin.
    unfold index_in_bounds; simpl.
    repeat (apply andb_true_iff; split); try apply Z.leb_le; try apply Z.ltb_lt; lia.
  - replace (s + Z.of_nat (length (r :: rs)))
      with ((s + 1) + Z.of_nat (length rs)) by (simpl; lia).
    apply IH; [lia | done].
Qed.

Lemma max_listZ_ge x xs : x ≤ max_listZ x xs ∧ Forall (λ y, y ≤ max_listZ x xs) xs.
Proof.
  induction xs as [|y xs [IH1 IH2]]; simpl; [split; [lia | constructor] |].
  split; [lia |]. constructor; [lia |].
  eapply Forall_impl; [exact IH2 | simpl; intros; lia].
Qed.

Lemma Forall_lens_le rs (n : Z) :
  Forall (λ d, d ≤ n) (lens rs) ↔ Forall (λ r, Z.of_nat (length r) ≤ n) rs.
Proof. unfold lens. by rewrite Forall_fmap. Qed.

(** *** Padding the dense tensor *)

Lemma pad_rows_resize (m : nat) rs (L : Z) :
  Forall (λ r, (length r ≤ m)%nat) rs →
  0 ≤ L →
  F_pad_right m (resize m 0 <$> rs) (L - Z.of_nat m)
  = Ok (T2 (Z.to_nat L) (resize (Z.to_nat L) 0 <$> rs)).
Proof.
  intros Hall HL. unfold F_pad_right.
  destruct (Z.leb_spec 0 (L - Z.of_nat m)) as [Hge|Hlt].
  - replace (m + Z.to_nat (L - Z.of_nat m))%nat with (Z.to_nat L) by lia.
    do 2 f_equal. rewrite <- list_fmap_compose.
    apply Forall_fmap_ext_1. eapply Forall_impl; [exact Hall |].
    intros r Hr. simpl in *.
    rewrite !resize_ge by lia. rewrite <- (assoc_L (++)), <- replicate_add.
    do 2 f_equal. lia.
  - replace (Z.of_nat m + (L - Z.of_nat m)) with L by lia.
    destruct (Z.leb_spec 0 L) as [_|?]; [| lia].
    do 2 f_equal. rewrite <- list_fmap_compose.
    apply Forall_fmap_ext_1, Forall_true. intros r. simpl.
    apply take_resize_le. lia.
Qed.

(** *** The padded rows of a ragged column *)

Lemma torch_max_lens rs :
  rs ≠ [] →
  ∃ m : nat, torch_max (T1 (lens rs)) = Ok (Z.of_nat m)
             ∧ Forall (λ r, (length r ≤ m)%nat) rs.
Proof.
  destruct rs as [|r rs]; [done | intros _].
  unfold torch_max. cbn [entries lens fmap list_fmap].
  pose proof (max_listZ_ge (Z.of_nat (length r)) (lens rs)) as [H1 H2].
  exists (Z.to_nat (max_listZ (Z.of_nat (length r)) (lens rs))).
  split; [f_equal; fold (lens rs); lia |].
  constructor; [lia |].
  apply Forall_lens_le in H2. eapply Forall_impl; [exact H2 |].
  simpl; intros; lia.
Qed.

(** Before the last step: the dense tensor of the column, as wide as its
    longest row. *)
Lemma pad_ragged_dense rs (values offsets : Tensor) (L : Z) :
  rs ≠ [] →
  _squeeze values = T1 (ragged_values rs) →
  _squeeze offsets = T1 (ragged_offsets rs) →
  ∃ m : nat,
    Forall (λ r, (length r ≤ m)%nat) rs
    ∧ _pad_ragged_tensor values offsets L
      = F_pad_right m (resize m 0 <$> rs) (L - Z.of_nat m).
Proof.
  intros Hne Hv Ho.
  unfold _pad_ragged_tensor, _pad_ragged_tensor_with. rewrite Hv, Ho.
  unfold ragged_offsets, ragged_values.
  cbn [tensor_len diff_first mbind result_bind].
  rewrite diff_offsets_from, length_offsets_from.
  destruct (torch_max_lens rs Hne) as (m & -> & Hall).
  exists m. split; [done |].
  cbn [mbind result_bind].
  fold (ragged_offsets rs). rewrite get_indices_ragged. cbn [mbind result_bind].
  unfold sparse_coo_tensor.
  rewrite length_coords, Nat.eqb_refl. cbn [negb].
  replace (Z.of_nat (S (length rs)) - 1) with (0 + Z.of_nat (length rs)) by lia.
  rewrite coords_in_bounds; [| lia |].
  2:{ eapply Forall_impl; [exact Hall |]. simpl; intros; lia. }
  cbn [negb mbind result_bind]. unfold to_dense. cbn [sp_cols sp_rows sp_indices sp_values].
  rewrite Z.add_0_l, !Nat2Z.id.
  pose proof (dense_rows rs [] m Hall) as Hd. simpl in Hd.
  change (Z.of_nat 0) with 0 in Hd. rewrite Hd. done.
Qed.

Lemma pad_ragged_rows rs (values offsets : Tensor) (L : Z) :
  rs ≠ [] →
  _squeeze values = T1 (ragged_values rs) →
  _squeeze offsets = T1 (ragged_offsets rs) →
  0 ≤ L →
  _pad_ragged_tensor values offsets L
  = Ok (T2 (Z.to_nat L) (resize (Z.to_nat L) 0 <$> rs)).
Proof.
  intros Hne Hv Ho HL.
  destruct (pad_ragged_dense rs values offsets L Hne Hv Ho) as (m & Hall & ->).
  by apply pad_rows_resize.
Qed.

(** A negative padding length makes [F.pad] raise. *)
Lemma pad_ragged_Ok_nonneg rs (values offsets : Tensor) (L : Z) t :
  rs ≠ [] →
  _squeeze values = T1 (ragged_values rs) →
  _squeeze offsets = T1 (ragged_offsets rs) →
  _pad_ragged_tensor values offsets L = Ok t →
  0 ≤ L.
Proof.
  intros Hne Hv Ho.
  destruct (pad_ragged_dense rs values offsets L Hne Hv Ho) as (m & Hall & ->).
  unfold F_pad_right.
  destruct (Z.leb_spec 0 (L - Z.of_nat m)); [lia |].
  destruct (Z.leb_spec 0 (Z.of_nat m + (L - Z.of_nat m))); [lia | done].
Qed.

(** *** Reading a well-formed encoding back as rows *)

Lemma diff_list_cons_cons (x y : Z) (l : list Z) :
  diff_list (x :: y :: l) = (y - x) :: diff_list (y :: l).
Proof. done. Qed.

Lemma mono_last (l : list Z) (x y : Z) :
  Forall (λ d, 0 ≤ d) (diff_list (x :: l)) → last (x :: l) = Some y → x ≤ y.
Proof.
  revert x; induction l as [|x1 l IH]; intros x Hmono Hlast.
  - simpl in Hlast. injection Hlast as ->. lia.
  - rewrite diff_list_cons_cons in Hmono. apply Forall_cons in Hmono as [Hd Hmono].
    rewrite last_cons_cons in Hlast. specialize (IH x1 Hmono Hlast). lia.
Qed.

Lemma split_rows_decode (o vs : list Z) (b : Z) :
  o !! 0%nat = Some b →
  Forall (λ d, 0 ≤ d) (diff_list o) →
  last o = Some (b + Z.of_nat (length vs)) →
  offsets_from b (split_rows vs (Z.to_nat <$> diff_list o)) = o
  ∧ concat (split_rows vs (Z.to_nat <$> diff_list o)) = vs.
Proof.
  revert vs b; induction o as [|x o IH]; intros vs b Hhd Hmono Hlast; [done |].
  simpl in Hhd. injection Hhd as ->.
  destruct o as [|x1 o].
  - simpl in Hlast. injection Hlast as Hlen.
    assert (length vs = 0%nat) as Hnil by lia.
    apply nil_length_inv in Hnil as ->. done.
  - pose proof (mono_last _ _ _ Hmono Hlast) as Hle.
    rewrite diff_list_cons_cons in *. apply Forall_cons in Hmono as [Hd Hmono].
    rewrite last_cons_cons in Hlast.
    pose proof (mono_last _ _ _ Hmono Hlast) as Hle1.
    cbn [fmap list_fmap split_rows offsets_from concat].
    assert (length (take (Z.to_nat (x1 - b)) vs) = Z.to_nat (x1 - b)) as Htake
      by (apply length_take_le; lia).
    destruct (IH (drop (Z.to_nat (x1 - b)) vs) x1) as [IH1 IH2]; [done | done | |].
    { rewrite Hlast, length_drop. f_equal. lia. }
    rewrite Htake.
    replace (b + Z.of_nat (Z.to_nat (x1 - b))) with x1 by lia.
    change (list_fmap Z nat Z.to_nat) with (fmap (M:=list) Z.to_nat).
    rewrite IH1, IH2, take_drop. done.
Qed.

Lemma forallb_nonneg (l : list Z) :
  forallb (λ d, 0 <=? d) l = true ↔ Forall (λ d, 0 ≤ d) l.
Proof.
  induction l as [|d l IH]; simpl; [split; [constructor | done] |].
  rewrite andb_true_iff, Forall_cons, IH, Z.leb_le. done.
Qed.

Lemma ragged_wf_rows (values offsets : list Z) :
  ragged_wf values offsets = true →
  ragged_rows values offsets ≠ []
  ∧ ragged_values (ragged_rows values offsets) = values
  ∧ ragged_offsets (ragged_rows values offsets) = offsets.
Proof.
  unfold ragged_wf. rewrite !andb_true_iff, !bool_decide_eq_true.
  intros [[[Hhd Hlen] Hmono] Hlast].
  apply Nat.leb_le in Hlen. apply forallb_nonneg in Hmono.
  destruct (split_rows_decode offsets values 0 Hhd Hmono) as [H1 H2];
    [by rewrite Hlast |].
  split; [| done].
  intros Hnil. unfold ragged_rows in *. rewrite Hnil in H1. simpl in H1.
  rewrite <- H1 in Hlen. simpl in Hlen. lia.
Qed.

(** Row [i] of [rs] lies between offsets [i] and [i + 1]. *)
Lemma offsets_from_lookup rs b (i : nat) (oi : Z) r :
  offsets_from b rs !! i = Some oi →
  rs !! i = Some r →
  b ≤ oi
  ∧ offsets_from b rs !! S i = Some (oi + Z.of_nat (length r))
  ∧ ∀ j : nat, (j < length r)%nat → concat rs !! (Z.to_nat (oi - b) + j)%nat = r !! j.
Proof.
  revert b i; induction rs as [|r0 rs IH]; intros b i Hoi Hr; [done |].
  destruct i as [|i].
  - simpl in Hoi, Hr. injection Hoi as <-. injection Hr as ->.
    split; [lia |]. split.
    + cbn [offsets_from]. simpl. by destruct rs.
    + intros j Hj. replace (Z.to_nat (b - b) + j)%nat with j by lia.
      simpl. by rewrite lookup_app_l.
  - cbn [offsets_from] in Hoi. simpl in Hoi, Hr.
    destruct (IH _ _ Hoi Hr) as (Hle & Hnext & Hval).
    split; [lia |]. split; [exact Hnext |].
    intros j Hj. simpl. rewrite lookup_app_r by lia. rewrite <- (Hval j Hj).
    f_equal. lia.
Qed.

Lemma lookup_offsets_rows rs b (i : nat) (oi oi' : Z) :
  offsets_from b rs !! i = Some oi →
  offsets_from b rs !! S i = Some oi' →
  ∃ r, rs !! i = Some r ∧ oi' = oi + Z.of_nat (length r).
Proof.
  intros Hi HSi.
  assert (i < length rs)%nat as Hlt.
  { apply lookup_lt_Some in HSi. rewrite length_offsets_from in HSi. lia. }
  destruct (lookup_lt_is_Some_2 rs i Hlt) as [r Hr].
  exists r. split; [done |].
  destruct (offsets_from_lookup _ _ _ _ _ Hi Hr) as (_ & Hn & _). congruence.
Qed.

Lemma max_row_length_ge rs b :
  Forall (λ r, Z.of_nat (length r) ≤ max_row_length (offsets_from b rs)) rs.
Proof.
  unfold max_row_length. rewrite diff_offsets_from.
  destruct rs as [|r rs]; [constructor |].
  cbn [lens fmap list_fmap]. fold (lens rs).
  pose proof (max_listZ_ge (Z.of_nat (length r)) (lens rs)) as [H1 H2].
  constructor; [done |]. by apply Forall_lens_le.
Qed.

End ragged.

(** ** The steps of the specification and the code *)

Section steps.

Lemma spec_row_lengths_diff (offsets : list Z) :
  spec_row_lengths offsets = diff_list offsets.
Proof.
  unfold spec_row_lengths.
  induction offsets as [|x o IH]; [done |].
  destruct o as [|y o]; [done |].
  rewrite diff_list_cons_cons, <- IH.
  cbn [length]. rewrite !Nat.sub_succ, !Nat.sub_0_r.
  cbn [seq fmap list_fmap]. f_equal.
  rewrite <- fmap_S_seq, <- list_fmap_compose. done.
Qed.

Lemma spec_repeat_interleave_ri (xs lengths : list Z) :
  spec_repeat_interleave xs lengths = ri xs lengths.
Proof.
  unfold spec_repeat_interleave, ri.
  revert lengths; induction xs as [|x xs IH]; intros [|n ns]; try done.
  cbn [zip_with concat]. rewrite bind_cons, IH. done.
Qed.

Lemma seqZ_of_nat (n : nat) : Z.of_nat <$> seq 0 n = seqZ 0 (Z.of_nat n).
Proof.
  unfold seqZ. rewrite Nat2Z.id. apply list_fmap_ext. intros; lia.
Qed.

Lemma removelast_take (l : list Z) : removelast l = take (length l - 1) l.
Proof.
  induction l as [|x l IH]; [done |].
  destruct l as [|y l]; [done |].
  change (removelast (x :: y :: l)) with (x :: removelast (y :: l)).
  rewrite IH. simpl. by rewrite Nat.sub_0_r.
Qed.

Lemma length_diff_list (l : list Z) : length (diff_list l) = (length l - 1)%nat.
Proof.
  unfold diff_list. rewrite length_zip_with, removelast_take, length_take.
  destruct l; simpl; lia.
Qed.

Lemma imap_sub_seqZ (b : Z) (l : list Z) :
  imap (λ k o, (b + Z.of_nat k) - o) l
  = zip_with Z.sub (seqZ b (Z.of_nat (length l))) l.
Proof.
  revert b; induction l as [|o l IH]; intros b; [done |].
  rewrite seqZ_cons by (simpl; lia).
  replace (Z.pred (Z.of_nat (length (o :: l)))) with (Z.of_nat (length l))
    by (simpl; lia).
  cbn [imap zip_with]. f_equal; [f_equal; lia |].
  rewrite <- IH. apply imap_ext. intros; simpl; lia.
Qed.

Lemma spec_coordinates_ragged (rs : list (list Z)) :
  spec_coordinates (ragged_offsets rs) (lens rs) = coords 0 rs.
Proof.
  unfold spec_coordinates, ragged_offsets.
  rewrite !spec_repeat_interleave_ri, length_lens, seqZ_of_nat.
  replace (take (length rs) (offsets_from 0 rs)) with (starts 0 rs).
  2:{ rewrite <- removelast_offsets_from, removelast_take, length_offsets_from.
      f_equal. lia. }
  rewrite <- (indices_gen rs 0 0). f_equal.
  rewrite <- length_ri_starts with (b := 0), <- imap_sub_seqZ.
  apply imap_ext. intros; simpl; lia.
Qed.

(** *** Densification, entry by entry *)

Lemma entry_add_at m (ix : Z * Z) (v : Z) (r c : nat) :
  0 ≤ ix.1 → 0 ≤ ix.2 →
  entry (add_at m ix v) r c
  = (λ x, x + (if decide (ix = (Z.of_nat r, Z.of_nat c)) then v else 0))
      <$> entry m r c.
Proof.
  intros H1 H2. destruct ix as [i j]; simpl in *.
  unfold entry, add_at; simpl. rewrite list_lookup_alter.
  destruct (decide (Z.to_nat i = r)) as [<-|Hr].
  - destruct (m !! Z.to_nat i) as [row|]; simpl; [| done].
    rewrite list_lookup_alter.
    destruct (decide (Z.to_nat j = c)) as [<-|Hc].
    + rewrite !Z2Nat.id by done. rewrite decide_True by done.
      destruct (row !! Z.to_nat j); simpl; [f_equal; lia | done].
    + rewrite decide_False by (intros [= _ ->]; lia).
      destruct (row !! c); simpl; [f_equal; lia | done].
  - rewrite decide_False by (intros [= -> _]; lia).
    destruct (m !! r) as [row|]; simpl; [| done].
    destruct (row !! c); simpl; [f_equal; lia | done].
Qed.

Lemma entry_foldl_dense (es : list (Z * Z * Z)) m (r c : nat) :
  Forall (λ e, 0 ≤ e.1.1 ∧ 0 ≤ e.1.2) es →
  entry (foldl dense_step m es) r c
  = (λ x, x + sumZ (snd <$> filter (λ e, e.1 = (Z.of_nat r, Z.of_nat c)) es))
      <$> entry m r c.
Proof.
  revert m; induction es as [|e es IH]; intros m Hes.
  - simpl. destruct (entry m r c); simpl; [f_equal; lia | done].
  - apply Forall_cons in Hes as [[He1 He2] Hes].
    cbn [foldl]. rewrite IH by done. unfold dense_step.
    rewrite entry_add_at by done. rewrite filter_cons.
    destruct (entry m r c); simpl; [| done]. f_equal.
    destruct (decide (e.1 = (Z.of_nat r, Z.of_nat c)));
      rewrite ?fmap_cons; unfold sumZ; cbn [foldr]; lia.
Qed.

Lemma shape_foldl_dense (es : list (Z * Z * Z)) m (rows cols : nat) :
  length m = rows → Forall (λ row, length row = cols) m →
  length (foldl dense_step m es) = rows
  ∧ Forall (λ row, length row = cols) (foldl dense_step m es).
Proof.
  revert m; induction es as [|e es IH]; intros m Hr Hc; [done |].
  cbn [foldl]. apply IH.
  - unfold dense_step, add_at. by rewrite length_alter.
  - unfold dense_step, add_at. apply Forall_alter; [done |].
    intros row Hrow. by rewrite length_alter.
Qed.

Lemma spec_densify_foldl (rows cols : nat) (es : list (Z * Z * Z)) :
  Forall (λ e, 0 ≤ e.1.1 ∧ 0 ≤ e.1.2) es →
  spec_densify rows cols es
  = foldl dense_step (replicate rows (replicate cols 0)) es.
Proof.
  intros Hes.
  destruct (shape_foldl_dense es (replicate rows (replicate cols 0)) rows cols)
    as [Hlen Hrows].
  { apply length_replicate. }
  { apply Forall_replicate, length_replicate. }
  unfold spec_densify.
  apply list_eq_same_length with rows; [done | by rewrite length_fmap, length_seq |].
  intros r row row' Hr Hrow Hrow'.
  rewrite list_lookup_fmap, lookup_seq_lt in Hrow by done.
  simpl in Hrow. injection Hrow as <-.
  rewrite Forall_lookup in Hrows. pose proof (Hrows r row' Hrow') as Hc.
  apply list_eq_same_length with cols; [done | by rewrite length_fmap, length_seq |].
  intros c x y Hlt Hx Hy.
  rewrite list_lookup_fmap, lookup_seq_lt in Hx by done.
  simpl in Hx. injection Hx as <-.
  pose proof (entry_foldl_dense es (replicate rows (replicate cols 0)) r c Hes) as He.
  unfold entry at 1 2 in He. rewrite Hrow' in He. simpl in He. rewrite Hy in He.
  rewrite lookup_replicate_2 in He by done. simpl in He.
  rewrite lookup_replicate_2 in He by done. simpl in He.
  injection He as ->. lia.
Qed.

Lemma coords_nonneg s (rs : list (list Z)) :
  0 ≤ s → Forall (λ ix : Z * Z, 0 ≤ ix.1 ∧ 0 ≤ ix.2) (coords s rs).
Proof.
  revert s; induction rs as [|r rs IH]; intros s Hs; [constructor |].
  cbn [coords]. apply Forall_app; split; [| apply IH; lia].
  apply Forall_fmap, Forall_seqZ. simpl. intros; lia.
Qed.

Lemma Forall_zip_fst {A B} (P : A → Prop) (l : list A) (k : list B) :
  Forall P l → Forall (λ e, P e.1) (zip l k).
Proof.
  intros Hl; revert k; induction Hl as [|x l Hx Hl IH]; intros [|y k];
    try constructor; auto.
Qed.

Lemma max_listZ_lub (x n : Z) (xs : list Z) :
  x ≤ n → Forall (λ y, y ≤ n) xs → max_listZ x xs ≤ n.
Proof. intros Hx; induction 1; simpl; lia. Qed.

Lemma spec_pad_right_resize (cols L : nat) (rs : list (list Z)) :
  Forall (λ r, (length r ≤ cols)%nat) rs → (cols ≤ L)%nat →
  spec_pad_right L (resize cols 0 <$> rs) = resize L 0 <$> rs.
Proof.
  intros Hall HL. unfold spec_pad_right. rewrite <- list_fmap_compose.
  apply Forall_fmap_ext_1. eapply Forall_impl; [exact Hall |].
  intros r Hr. simpl in *. rewrite length_resize.
  rewrite !resize_ge by lia. rewrite <- (assoc_L (++)), <- replicate_add.
  do 2 f_equal. lia.
Qed.

Lemma spec_pad_ragged_rows (rs : list (list Z)) (L : Z) :
  Forall (λ r, Z.of_nat (length r) ≤ L) rs → 0 ≤ L →
  spec_pad_ragged (ragged_values rs) (ragged_offsets rs) L
  = T2 (Z.to_nat L) (resize (Z.to_nat L) 0 <$> rs).
Proof.
  intros Hall HL. unfold spec_pad_ragged.
  rewrite spec_row_lengths_diff. unfold ragged_offsets.
  rewrite diff_offsets_from, length_offsets_from.
  fold (ragged_offsets rs). rewrite spec_coordinates_ragged.
  unfold spec_sparse, ragged_values. cbn zeta.
  set (cols := Z.to_nat (max_listZ 0 (lens rs))).
  assert (Forall (λ r, (length r ≤ cols)%nat) rs) as Hcols.
  { pose proof (max_listZ_ge 0 (lens rs)) as [H0 Hge].
    apply Forall_lens_le in Hge. eapply Forall_impl; [exact Hge |].
    subst cols. simpl; intros; lia. }
  assert (cols ≤ Z.to_nat L)%nat as HcL.
  { pose proof (max_listZ_lub 0 L (lens rs) HL) as Hlub.
    subst cols. rewrite Forall_lens_le in Hlub. specialize (Hlub Hall). lia. }
  rewrite spec_densify_foldl
    by (apply (Forall_zip_fst (λ ix : Z * Z, 0 ≤ ix.1 ∧ 0 ≤ ix.2)), coords_nonneg; lia).
  replace (S (length rs) - 1)%nat with (length rs) by lia.
  pose proof (dense_rows rs [] cols Hcols) as Hd. simpl in Hd.
  change (Z.of_nat 0) with 0 in Hd. rewrite Hd.
  by rewrite spec_pad_right_resize.
Qed.

End steps.

(** ** [TabularPadding._pad_ragged_tensor] *)

(** C1.  For a ragged column given by a values tensor and an offsets tensor
    (the offsets start at 0, never decrease and end at the number of values)
    whose rows all have the same length, padding to a length [L] that is at
    least the longest row returns a dense tensor with one row per row of the
    column and [L] columns, in which entry [(i, j)] is
    [values[offsets[i] + j]] for [j] below the length
    [offsets[i+1] - offsets[i]] of row [i], and 0 from there up to
    [L - 1]. *)
Theorem pad_ragged_preserves_values (values offsets : list Z) (L : Z) :
  ragged_wf values offsets = true →
  rows_equal_length offsets = true →
  max_row_length offsets ≤ L →
  ∃ rows,
    _pad_ragged_tensor (T1 values) (T1 offsets) L = Ok (T2 (Z.to_nat L) rows)
    ∧ length rows = (length offsets - 1)%nat
    ∧ ∀ (i : nat) (oi oi' : Z),
        offsets !! i = Some oi → offsets !! S i = Some oi' →
        ∃ row, rows !! i = Some row
          ∧ (∀ j : nat, Z.of_nat j < oi' - oi →
               ∃ v, values !! (Z.to_nat oi + j)%nat = Some v ∧ row !! j = Some v)
          ∧ (∀ j : nat, oi' - oi ≤ Z.of_nat j < L → row !! j = Some 0).
Proof.
  intros Hwf _ HL.
  destruct (ragged_wf_rows values offsets Hwf) as (Hne & Hv & Ho).
  set (rs := ragged_rows values offsets) in *.
  pose proof (max_row_length_ge rs 0) as Hmax.
  fold (ragged_offsets rs) in Hmax. rewrite Ho in Hmax.
  assert (0 ≤ L) as HL0.
  { destruct rs as [|r rs']; [done |]. apply Forall_cons in Hmax as [Hr _]. lia. }
  exists (resize (Z.to_nat L) 0 <$> rs). split; [| split].
  - apply pad_ragged_rows; simpl; by rewrite ?Hv, ?Ho.
  - rewrite length_fmap, <- Ho. unfold ragged_offsets.
    rewrite length_offsets_from. lia.
  - intros i oi oi' Hi HSi. rewrite <- Ho in Hi, HSi. unfold ragged_offsets in Hi, HSi.
    destruct (lookup_offsets_rows _ _ _ _ _ Hi HSi) as (r & Hr & ->).
    destruct (offsets_from_lookup _ _ _ _ _ Hi Hr) as (Hle & _ & Hval).
    assert (Z.of_nat (length r) ≤ L) as HrL.
    { rewrite Forall_lookup in Hmax. specialize (Hmax i r Hr). simpl in Hmax. lia. }
    exists (resize (Z.to_nat L) 0 r). split; [| split].
    + by rewrite list_lookup_fmap, Hr.
    + intros j Hj. assert (j < length r)%nat as Hj' by lia.
      destruct (lookup_lt_is_Some_2 r j Hj') as [v Hv'].
      exists v. split.
      * rewrite <- Hv. unfold ragged_values. rewrite <- Hv', <- (Hval j Hj').
        f_equal. lia.
      * rewrite lookup_resize by lia. done.
    + intros j Hj. apply lookup_resize_new; lia.
Qed.

Lemma pad_ragged_preserves_values_witness :
  ∃ rows,
    _pad_ragged_tensor (T1 [1; 2; 3; 4]) (T1 [0; 2; 4]) 3 = Ok (T2 3 rows)
    ∧ rows = [[1; 2; 0]; [3; 4; 0]].
Proof.
  destruct (pad_ragged_preserves_values [1; 2; 3; 4] [0; 2; 4] 3) as (rows & Hrun & _);
    [reflexivity | reflexivity | by vm_compute |].
  exists rows. split; [exact Hrun |].
  vm_compute in Hrun. by injection Hrun as <-.
Defined.


(** C6.  For a ragged column, what [_pad_ragged_tensor] returns is the
    composition of the steps of the specification: row lengths
    [offsets[i+1] - offsets[i]]; coordinate pairs from repeat-interleaving
    the row indices and row offsets by the lengths; the sparse tensor of
    shape (rows, longest row) over those coordinates and the values; its
    dense form; padding on the right up to [L] columns. *)
Theorem pad_ragged_refines_spec (values offsets : list Z) (L : Z) :
  ragged_wf values offsets = true →
  max_row_length offsets ≤ L →
  _pad_ragged_tensor (T1 values) (T1 offsets) L
  = Ok (spec_pad_ragged values offsets L).
Proof.
  intros Hwf HL.
  destruct (ragged_wf_rows values offsets Hwf) as (Hne & Hv & Ho).
  set (rs := ragged_rows values offsets) in *.
  pose proof (max_row_length_ge rs 0) as Hmax.
  fold (ragged_offsets rs) in Hmax. rewrite Ho in Hmax.
  assert (Forall (λ r, Z.of_nat (length r) ≤ L) rs) as Hall.
  { eapply Forall_impl; [exact Hmax |]. simpl; intros; lia. }
  assert (0 ≤ L) as HL0.
  { destruct rs as [|r rs']; [done |]. apply Forall_cons in Hall as [Hr _]. lia. }
  rewrite <- Hv at 2. rewrite <- Ho at 2.
  rewrite spec_pad_ragged_rows by done.
  apply pad_ragged_rows; simpl; by rewrite ?Hv, ?Ho.
Qed.

Lemma pad_ragged_refines_spec_witness :
  _pad_ragged_tensor (T1 [7; 8; 9]) (T1 [0; 1; 3]) 2
  = Ok (spec_pad_ragged [7; 8; 9] [0; 1; 3] 2).
Proof.
  apply (pad_ragged_refines_spec [7; 8; 9] [0; 1; 3] 2); [reflexivity | by vm_compute].
Defined.

(** C7, as stated, fails: for a values tensor that encodes one row, of shape
    (3) or (3, 1), the result of the padding depends on the method that
    builds the coordinates: nothing bypasses it. *)
Lemma single_row_does_not_bypass :
  ¬ bypasses_coordinates (T1 [5; 6; 7]) (T1 [0; 3]) 4
  ∧ ¬ bypasses_coordinates (T2 1 [[5]; [6]; [7]]) (T1 [0; 3]) 4.
Proof.
  split; intros H; specialize (H (λ _ _, Raise RuntimeError)); by vm_compute in H.
Qed.

(** C7, amended.  For a ragged input whose values tensor encodes a single row
    of [n] values, given with shape (n) or (n, 1), the padding does not
    bypass the coordinate construction: [_squeeze] only flattens the
    (n, 1) tensor, [_get_indices] builds the coordinates (0, 0) ...
    (0, n - 1), the result is computed from what the coordinate method
    returns, and it is the single row of the values followed by zeros up to
    [L] columns. *)
Theorem single_row_uses_coordinates (values offsets : Tensor) (vs : list Z) (L : Z) :
  _squeeze values = T1 vs →
  _squeeze offsets = T1 [0; Z.of_nat (length vs)] →
  Z.of_nat (length vs) ≤ L →
  _get_indices [0; Z.of_nat (length vs)] [Z.of_nat (length vs)]
  = Ok ((λ j, (0, j)) <$> seqZ 0 (Z.of_nat (length vs)))
  ∧ (∀ get_indices,
       _pad_ragged_tensor_with get_indices values offsets L
       = get_indices [0; Z.of_nat (length vs)] [Z.of_nat (length vs)] ≫= λ indices,
           sparse_coo_tensor indices (T1 vs) 1 (Z.of_nat (length vs)) ≫= λ sparse_tensor,
             _pad_dense_tensor (to_dense sparse_tensor) L)
  ∧ _pad_ragged_tensor values offsets L
    = Ok (T2 (Z.to_nat L) [vs ++ replicate (Z.to_nat L - length vs) 0]).
Proof.
  intros Hv Ho HL. split; [| split].
  - pose proof (get_indices_ragged [vs]) as H. cbn in H.
    rewrite Z.add_0_l, app_nil_r in H. exact H.
  - intros gi. unfold _pad_ragged_tensor_with. rewrite Hv, Ho.
    cbn [tensor_len diff_first mbind result_bind length].
    unfold diff_list. cbn [tail removelast zip_with].
    rewrite Z.sub_0_r. unfold torch_max. cbn [entries max_listZ foldr mbind result_bind].
    done.
  - rewrite (pad_ragged_rows [vs]); [| done | | | lia].
    + cbn [fmap list_fmap]. rewrite resize_ge by lia. done.
    + rewrite Hv. unfold ragged_values. simpl. by rewrite app_nil_r.
    + rewrite Ho. unfold ragged_offsets. simpl. by rewrite Z.add_0_l.
Qed.

Lemma single_row_uses_coordinates_witness :
  _pad_ragged_tensor (T2 1 [[5]; [6]; [7]]) (T1 [0; 3]) 4 = Ok (T2 4 [[5; 6; 7; 0]]).
Proof.
  destruct (single_row_uses_coordinates (T2 1 [[5]; [6]; [7]]) (T1 [0; 3]) [5; 6; 7] 4)
    as (_ & _ & Hrun); [reflexivity | reflexivity | simpl; lia |].
  exact Hrun.
Defined.

(** ** [TabularPadding.forward] *)

Section forward.
Implicit Types (self : TabularPadding) (feats : dict Tensor) (t x y : Tensor).

(** *** What never raises a [ValueError] *)

Lemma no_VE_bind {A B} (m : result A) (f : A → result B) :
  is_ValueError m = false →
  (∀ a, m = Ok a → is_ValueError (f a) = false) →
  is_ValueError (m ≫= f) = false.
Proof. destruct m as [a|e]; simpl; [intros _ H; by apply H | done]. Qed.

Lemma no_VE_foldM {A B} (f : B → A → result B) (b : B) (l : list A) :
  (∀ b a, is_ValueError (f b a) = false) →
  is_ValueError (foldM_result f b l) = false.
Proof.
  intros Hf. revert b; induction l as [|a l IH]; intros b; [done |].
  simpl. apply no_VE_bind; [apply Hf | intros; apply IH].
Qed.

Ltac no_VE :=
  repeat first
    [ done
    | apply no_VE_bind; [| intros ? ?]
    | apply no_VE_foldM; intros ? ?
    | case_match ].

Lemma no_VE_diff_first t : is_ValueError (diff_first t) = false.
Proof. by destruct t. Qed.

Lemma no_VE_torch_max t : is_ValueError (torch_max t) = false.
Proof. unfold torch_max. by case_match. Qed.

Lemma no_VE_get_indices offs diffs : is_ValueError (_get_indices offs diffs) = false.
Proof. unfold _get_indices, arange, repeat_interleave. no_VE. Qed.

Lemma no_VE_pad_dense t L : is_ValueError (_pad_dense_tensor t L) = false.
Proof. unfold _pad_dense_tensor, F_pad_right. no_VE. Qed.

Lemma no_VE_pad_ragged values offsets L :
  is_ValueError (_pad_ragged_tensor values offsets L) = false.
Proof.
  unfold _pad_ragged_tensor, _pad_ragged_tensor_with.
  apply no_VE_bind; [by destruct (_squeeze offsets) | intros len _].
  apply no_VE_bind; [apply no_VE_diff_first | intros d _].
  apply no_VE_bind; [apply no_VE_torch_max | intros m _].
  destruct (_squeeze offsets), d; try done.
  apply no_VE_bind; [apply no_VE_get_indices | intros ix _].
  apply no_VE_bind; [| intros; apply no_VE_pad_dense].
  unfold sparse_coo_tensor. no_VE.
Qed.

Lemma no_VE_dict_item {V} k (d : dict V) : is_ValueError (dict_item k d) = false.
Proof. unfold dict_item. by case_match. Qed.

Lemma no_VE_pad_feature self feats lens L acc kv :
  is_ValueError (pad_feature self feats lens L acc kv) = false.
Proof.
  unfold pad_feature. destruct kv as [key value].
  repeat case_match; try done.
  - apply no_VE_bind; [apply no_VE_dict_item | intros v _].
    apply no_VE_bind; [apply no_VE_pad_ragged | done].
  - apply no_VE_bind; [apply no_VE_pad_dense | done].
Qed.

Lemma no_VE_pad_target tgts L acc kv :
  is_ValueError (pad_target tgts L acc kv) = false.
Proof.
  unfold pad_target. destruct kv as [key value].
  repeat case_match; try done.
  apply no_VE_bind; [apply no_VE_dict_item | intros v _].
  apply no_VE_bind; [apply no_VE_pad_ragged | done].
Qed.

Lemma no_VE_padding_length self feats :
  is_ValueError (padding_length self feats) = false.
Proof.
  assert (is_ValueError (batch_max_sequence_length feats) = false) as H.
  { unfold batch_max_sequence_length. apply no_VE_foldM. intros b [key val].
    case_match; [| done].
    apply no_VE_bind; [apply no_VE_diff_first | intros d _].
    apply no_VE_bind; [apply no_VE_torch_max | done]. }
  unfold padding_length. by repeat case_match.
Qed.

Lemma no_VE_get_sequence_lengths self feats :
  is_ValueError (_get_sequence_lengths self feats) = false.
Proof.
  unfold _get_sequence_lengths. apply no_VE_foldM. intros b [key val].
  repeat case_match; try done.
  apply no_VE_bind; [apply no_VE_diff_first | done].
Qed.

(** After the check, [forward] raises no [ValueError]. *)
Lemma no_VE_after_check self (batch : Batch) lens L :
  is_ValueError
    (batch_padded ←
       foldM_result (pad_feature self (features batch) lens L) [] (features batch);
     targets_padded ←
       match targets batch with
       | None => Ok None
       | Some tgts => Some <$> foldM_result (pad_target tgts L) [] tgts
       end;
     Ok (mkBatch batch_padded targets_padded (Some lens))) = false.
Proof.
  apply no_VE_bind.
  { apply no_VE_foldM. intros; apply no_VE_pad_feature. }
  intros bp _. apply no_VE_bind; [| done].
  destruct (targets batch) as [tgts|]; [| done].
  pose proof (no_VE_foldM (pad_target tgts L) [] tgts (no_VE_pad_target tgts L)) as H.
  by destruct (foldM_result (pad_target tgts L) [] tgts).
Qed.

(** *** The check of the sequence lengths *)

Lemma broadcast_dim_same (a : nat) : broadcast_dim a a = Some a.
Proof. unfold broadcast_dim. by rewrite Nat.eqb_refl. Qed.

Lemma all_eq_refl x : all_eq x x = Ok true.
Proof.
  unfold all_eq. rewrite !broadcast_dim_same. f_equal.
  apply forallb_forall. intros i _. apply forallb_forall. intros j _.
  apply Z.eqb_refl.
Qed.

Lemma forallb_lookup_total_eq (xs ys : list Z) (n : nat) :
  length xs = n → length ys = n →
  forallb (λ j, xs !!! j =? ys !!! j) (seq 0 n) = bool_decide (xs = ys).
Proof.
  intros Hx Hy. destruct (bool_decide_reflect (xs = ys)) as [->|Hne].
  - apply forallb_forall. intros j _. apply Z.eqb_refl.
  - apply not_true_is_false. intros Hall. apply Hne.
    rewrite forallb_forall in Hall.
    apply list_eq_same_length with n; [done | done |].
    intros j x y Hj Hxj Hyj.
    assert (In j (seq 0 n)) as Hin by (apply in_seq; lia).
    specialize (Hall j Hin). apply Z.eqb_eq in Hall.
    by rewrite (list_lookup_total_correct _ _ _ Hxj),
               (list_lookup_total_correct _ _ _ Hyj) in Hall.
Qed.

Lemma all_eq_vec (n : nat) x y :
  is_vec n x → is_vec n y → all_eq x y = Ok (bool_decide (x = y)).
Proof.
  intros (xs & -> & Hx) (ys & -> & Hy).
  unfold all_eq. cbn [shape2 fst snd]. rewrite Hx, Hy, !broadcast_dim_same.
  f_equal. cbn [seq forallb]. rewrite andb_true_r.
  unfold bget. cbn [shape2 fst snd get2]. rewrite Hx, Hy.
  transitivity (bool_decide (xs = ys)).
  - rewrite <- (forallb_lookup_total_eq xs ys n) by done.
    destruct (Nat.eqb_spec n 1) as [->|_]; [| done].
    destruct xs as [|? [|]], ys as [|? [|]]; done.
  - destruct (bool_decide_reflect (xs = ys)) as [->|Hne]; symmetry;
      [by apply bool_decide_eq_true_2 | apply bool_decide_eq_false_2; by intros [= ->]].
Qed.

Lemma mapM_result_Ok {A B} (f : A → result B) (g : A → B) (l : list A) :
  Forall (λ a, f a = Ok (g a)) l → mapM_result f l = Ok (g <$> l).
Proof. induction 1 as [|a l Ha Hl IH]; [done |]. simpl. by rewrite Ha, IH. Qed.

Lemma check_identical (ts : list Tensor) :
  all_identical ts → is_ValueError (check_seq_shapes ts) = false.
Proof.
  intros Hid. unfold check_seq_shapes.
  rewrite (mapM_result_Ok _ (λ _, true)).
  2:{ apply Forall_forall. intros x Hx.
      destruct ts as [|t0 ts']; [by apply elem_of_nil in Hx |].
      rewrite (Hid x t0 Hx) by left. apply all_eq_refl. }
  cbn [mbind result_bind]. destruct ts as [|t0 ts']; [done |].
  unfold all_stack. cbn [fmap list_fmap mbind result_bind].
  replace (forallb id (true :: ((λ _, true) <$> ts'))) with true; [done |].
  symmetry. apply forallb_forall. intros b Hb. apply list_elem_of_In in Hb.
  apply elem_of_cons in Hb as [->|Hb]; [done |].
  by apply list_elem_of_fmap in Hb as (? & -> & _).
Qed.

Lemma check_not_identical (n : nat) (ts : list Tensor) :
  Forall (is_vec n) ts → ¬ all_identical ts →
  is_ValueError (check_seq_shapes ts) = true.
Proof.
  intros Hvec Hnot. unfold check_seq_shapes.
  destruct ts as [|t0 ts'].
  { destruct Hnot. intros x y Hx. by apply elem_of_nil in Hx. }
  rewrite (mapM_result_Ok _ (λ x, bool_decide (x = t0))).
  2:{ apply Forall_forall. intros x Hx. rewrite Forall_forall in Hvec.
      apply all_eq_vec with n; [by apply Hvec | apply Hvec; left]. }
  cbn [mbind result_bind]. unfold all_stack. cbn [fmap list_fmap mbind result_bind].
  replace (forallb id _) with false; [done |].
  symmetry. apply not_true_is_false. intros Hall. apply Hnot.
  rewrite forallb_forall in Hall.
  assert (∀ x, x ∈ t0 :: ts' → x = t0) as Heq.
  { intros x Hx. specialize (Hall (bool_decide (x = t0))).
    assert (bool_decide (x = t0) = true) as Hb; [| by apply bool_decide_eq_true in Hb].
    apply Hall, list_elem_of_In.
    change (bool_decide (x = t0) ∈ (λ x, bool_decide (x = t0)) <$> t0 :: ts').
    apply list_elem_of_fmap. by exists x. }
  intros x y Hx Hy. by rewrite (Heq x Hx), (Heq y Hy).
Qed.

(** *** Batches of [n] rows *)

Lemma Forall_dict_set {V} (P : V → Prop) k v (d : dict V) :
  P v → Forall P (dict_values d) → Forall P (dict_values (dict_set k v d)).
Proof.
  unfold dict_values. intros Hv. induction d as [|[k' v'] d IH]; simpl.
  - intros _. by repeat constructor.
  - intros [Hv' Hd]%Forall_cons. destruct (String.eqb k k'); simpl.
    + by constructor.
    + constructor; [done | by apply IH].
Qed.

Lemma get_sequence_lengths_aligned self (n : nat) feats acc :
  batch_aligned self n feats = true →
  Forall (is_vec n) (dict_values acc) →
  ∃ lens,
    foldM_result
      (λ seq_inputs_lengths kv,
         let '(key, val) := kv in
         if endswith key "__offsets" then
           d ← diff_first val;
           Ok (dict_set (drop_suffix key "__offsets") d seq_inputs_lengths)
         else if str_in key (sparse_features self) then
           Ok (dict_set key (ne_sum_last (padding_idx self) val) seq_inputs_lengths)
         else Ok seq_inputs_lengths)
      acc feats = Ok lens
    ∧ Forall (is_vec n) (dict_values lens).
Proof.
  unfold batch_aligned. revert acc; induction feats as [|[key val] feats IH];
    intros acc Hal Hacc; [by exists acc |].
  cbn [forallb] in Hal. apply andb_true_iff in Hal as [Hcol Hal].
  unfold column_aligned in Hcol. cbn [fst snd] in Hcol.
  cbn [foldM_result].
  destruct (endswith key "__offsets").
  - destruct val as [|offs|]; try done. apply Nat.eqb_eq in Hcol.
    cbn [diff_first mbind result_bind]. apply IH; [done |].
    apply Forall_dict_set; [| done].
    exists (diff_list offs). split; [done |]. rewrite length_diff_list. lia.
  - destruct (str_in key (sparse_features self)).
    + destruct val as [| |c rows]; try done. apply Nat.eqb_eq in Hcol.
      cbn [mbind result_bind]. apply IH; [done |].
      apply Forall_dict_set; [| done].
      eexists. split; [done |]. by rewrite length_fmap.
    + cbn [mbind result_bind]. by apply IH.
Qed.

Lemma batch_max_aligned self (n : nat) feats (acc : Z) :
  batch_aligned self n feats = true → (1 ≤ n)%nat →
  ∃ m,
    foldM_result
      (λ batch_max kv,
         let '(key, val) := kv in
         if endswith key "__offsets" then
           d ← diff_first val;
           max_row_length ← torch_max d;
           Ok (Z.max max_row_length batch_max)
         else Ok batch_max)
      acc feats = Ok m.
Proof.
  unfold batch_aligned. intros Hal Hn.
  revert acc Hal; induction feats as [|[key val] feats IH]; intros acc Hal;
    [by exists acc |].
  cbn [forallb] in Hal. apply andb_true_iff in Hal as [Hcol Hal].
  unfold column_aligned in Hcol. cbn [fst snd] in Hcol.
  cbn [foldM_result].
  destruct (endswith key "__offsets"); [| by apply IH].
  destruct val as [|offs|]; try done. apply Nat.eqb_eq in Hcol.
  cbn [diff_first mbind result_bind]. unfold torch_max. cbn [entries].
  pose proof (length_diff_list offs) as Hd.
  destruct (diff_list offs) as [|d ds]; [simpl in Hd; lia |].
  cbn [mbind result_bind]. by apply IH.
Qed.

Lemma padding_length_aligned self (n : nat) feats :
  batch_aligned self n feats = true → (1 ≤ n)%nat →
  ∃ L, padding_length self feats = Ok L.
Proof.
  intros Hal Hn. unfold padding_length, batch_max_sequence_length.
  destruct (batch_max_aligned self n feats 0 Hal Hn) as [m Hm].
  destruct (max_sequence_length self) as [l|]; [| by exists m].
  destruct (l =? 0); [by exists m | by exists l].
Qed.

Lemma vec0_identical (ts : list Tensor) : Forall (is_vec 0) ts → all_identical ts.
Proof.
  intros Hvec x y Hx Hy. rewrite Forall_forall in Hvec.
  destruct (Hvec x Hx) as (xs & -> & Hxs), (Hvec y Hy) as (ys & -> & Hys).
  by apply nil_length_inv in Hxs as ->, Hys as ->.
Qed.

End forward.

(** C3.  In a batch of [n] rows, [forward] computes one vector of per-row
    lengths for each sequence column.  When there are two or more and they
    are not all identical, [forward] raises a [ValueError] and returns no
    padded batch; when they are all identical, it raises no [ValueError]. *)
Theorem seq_lengths_checked (self : TabularPadding) (inputs : dict Tensor)
    (batch : Batch) (n : nat) :
  batch_aligned self n (features batch) = true →
  ∃ seq_inputs_lengths,
    _get_sequence_lengths self (features batch) = Ok seq_inputs_lengths
    ∧ ((2 ≤ length seq_inputs_lengths)%nat →
       ¬ all_identical (dict_values seq_inputs_lengths) →
       is_ValueError (forward self inputs batch) = true)
    ∧ (all_identical (dict_values seq_inputs_lengths) →
       is_ValueError (forward self inputs batch) = false).
Proof.
  intros Hal.
  destruct (get_sequence_lengths_aligned self n (features batch) [] Hal)
    as (lens & Hlens & Hvec); [constructor |].
  change (_get_sequence_lengths self (features batch) = Ok lens) in Hlens.
  exists lens. split; [exact Hlens |]. split.
  - intros _ Hnot.
    assert (1 ≤ n)%nat as Hn.
    { destruct n; [| lia]. destruct Hnot. by apply vec0_identical. }
    destruct (padding_length_aligned self n (features batch) Hal Hn) as [L HL].
    unfold forward. rewrite HL. cbn [mbind result_bind].
    rewrite Hlens. cbn [mbind result_bind].
    pose proof (check_not_identical n _ Hvec Hnot) as Hcheck.
    by destruct (check_seq_shapes (dict_values lens)) as [|[]].
  - intros Hid. unfold forward.
    apply no_VE_bind; [apply no_VE_padding_length | intros L _].
    rewrite Hlens. cbn [mbind result_bind].
    apply no_VE_bind; [by apply check_identical | intros _ _].
    apply no_VE_after_check.
Qed.

Lemma seq_lengths_checked_witness :
  is_ValueError
    (forward (mkTabularPadding [mkColumn "a" [SEQUENCE]; mkColumn "b" [SEQUENCE]] None) []
       (mkBatch [("a__values", T1 [1; 2; 3; 4]); ("a__offsets", T1 [0; 2; 4]);
                 ("b__values", T1 [5; 6; 7]); ("b__offsets", T1 [0; 2; 3])]
                None None)) = true.
Proof.
  destruct (seq_lengths_checked
              (mkTabularPadding [mkColumn "a" [SEQUENCE]; mkColumn "b" [SEQUENCE]] None) []
              (mkBatch [("a__values", T1 [1; 2; 3; 4]); ("a__offsets", T1 [0; 2; 4]);
                        ("b__values", T1 [5; 6; 7]); ("b__offsets", T1 [0; 2; 3])]
                       None None) 2)
    as (lens & Hlens & Hdiffer & _); [reflexivity |].
  vm_compute in Hlens. injection Hlens as <-.
  apply Hdiffer; [simpl; lia |].
  intros Hid. specialize (Hid (T1 [2; 2]) (T1 [2; 1])).
  discriminate Hid; set_solver.
Defined.

(** *** The padded features *)

Section padded.
Implicit Types (self : TabularPadding) (feats lens acc : dict Tensor).

Lemma max_listZ_swap (xs : list Z) (a b : Z) :
  Z.max (max_listZ a xs) b = Z.max a (max_listZ b xs).
Proof. induction xs as [|x xs IH]; simpl; lia. Qed.

Lemma max_listZ_max (xs : list Z) (a b : Z) :
  max_listZ (Z.max a b) xs = Z.max a (max_listZ b xs).
Proof. induction xs as [|x xs IH]; simpl; lia. Qed.

Lemma max_listZ_app (xs ys : list Z) (a : Z) :
  max_listZ a (xs ++ ys) = max_listZ (max_listZ a ys) xs.
Proof. unfold max_listZ. apply foldr_app. Qed.

(** The first loop of [forward] finds the longest row of the offsets
    columns. *)
Lemma batch_max_observed feats (acc m : Z) :
  foldM_result
    (λ batch_max kv,
       let '(key, val) := kv in
       if endswith key "__offsets" then
         d ← diff_first val;
         max_row_length ← torch_max d;
         Ok (Z.max max_row_length batch_max)
       else Ok batch_max)
    acc feats = Ok m →
  m = max_listZ acc (observed_row_lengths feats).
Proof.
  revert acc; induction feats as [|[key val] feats IH]; intros acc.
  - simpl. by intros [= ->].
  - change (observed_row_lengths ((key, val) :: feats))
      with ((if endswith key "__offsets"
             then match diff_first val with Ok d => entries d | Raise _ => [] end
             else []) ++ observed_row_lengths feats).
    cbn [foldM_result].
    destruct (endswith key "__offsets"); [| apply IH].
    destruct (diff_first val) as [d|e]; [| done]. cbn [mbind result_bind].
    unfold torch_max. destruct (entries d) as [|d0 ds]; [done |].
    cbn [mbind result_bind]. intros Hm. rewrite (IH _ Hm).
    rewrite max_listZ_app, max_listZ_max.
    change (max_listZ ?a (d0 :: ds)) with (Z.max d0 (max_listZ a ds)).
    apply max_listZ_swap.
Qed.

Lemma padding_length_spec self feats (L : Z) :
  padding_length self feats = Ok L →
  L = match max_sequence_length self with
      | Some l => if l =? 0 then max_listZ 0 (observed_row_lengths feats) else l
      | None => max_listZ 0 (observed_row_lengths feats)
      end.
Proof.
  unfold padding_length, batch_max_sequence_length.
  destruct (max_sequence_length self) as [l|].
  - destruct (l =? 0); [apply batch_max_observed | by intros [= ->]].
  - apply batch_max_observed.
Qed.

Lemma pad_feature_other self feats lens (L : Z) acc kv bp (col : string) :
  pad_feature self feats lens L acc kv = Ok bp →
  stores_under kv.1 ≠ Some col →
  dict_get col bp = dict_get col acc.
Proof.
  destruct kv as [key value]. unfold pad_feature, stores_under. cbn [fst].
  destruct (endswith key "__offsets").
  - intros Hrun Hne.
    destruct (str_in _ _); [| by injection Hrun as <-].
    apply bind_Ok in Hrun as (v & _ & Hrun).
    apply bind_Ok in Hrun as (t & _ & [= <-]).
    apply dict_get_set_ne. congruence.
  - destruct (endswith key "__values"); [by intros [= <-] |].
    intros Hrun Hne. destruct (_ && _); [| by injection Hrun as <-].
    apply bind_Ok in Hrun as (t & _ & [= <-]).
    apply dict_get_set_ne. congruence.
Qed.

Lemma fold_pad_feature_other self feats lens (L : Z) (l : dict Tensor) acc bp
    (col : string) :
  foldM_result (pad_feature self feats lens L) acc l = Ok bp →
  Forall (λ kv, stores_under kv.1 ≠ Some col) l →
  dict_get col bp = dict_get col acc.
Proof.
  revert acc; induction l as [|kv l IH]; intros acc Hrun Hall.
  - by injection Hrun as <-.
  - apply Forall_cons in Hall as [Hkv Hall]. cbn [foldM_result] in Hrun.
    apply bind_Ok in Hrun as (acc' & Hstep & Hrun).
    rewrite (IH _ Hrun Hall). by eapply pad_feature_other.
Qed.

Lemma forward_Ok self (inputs : dict Tensor) (batch out : Batch) :
  forward self inputs batch = Ok out →
  ∃ L lens,
    padding_length self (features batch) = Ok L
    ∧ _get_sequence_lengths self (features batch) = Ok lens
    ∧ foldM_result (pad_feature self (features batch) lens L) [] (features batch)
      = Ok (features out).
Proof.
  unfold forward. intros Hrun.
  apply bind_Ok in Hrun as (L & HL & Hrun).
  apply bind_Ok in Hrun as (lens & Hlens & Hrun).
  apply bind_Ok in Hrun as ([] & _ & Hrun).
  apply bind_Ok in Hrun as (bp & Hbp & Hrun).
  apply bind_Ok in Hrun as (tp & _ & [= <-]).
  by exists L, lens.
Qed.

Lemma later_rounds_store_elsewhere (feats l1 l2 : dict Tensor) (key : string)
    (value : Tensor) :
  feats = l1 ++ (key, value) :: l2 →
  NoDup (dict_keys feats) →
  endswith key "__offsets" = true →
  dict_get (drop_suffix key "__offsets") feats = None →
  Forall (λ kv, stores_under kv.1 ≠ Some (drop_suffix key "__offsets")) l2.
Proof.
  intros -> Hnd Hkey Hcol. apply Forall_forall. intros [key' value'] Hin.
  cbn [fst]. unfold dict_keys in Hnd. rewrite fmap_app, fmap_cons in Hnd.
  apply NoDup_app in Hnd as (_ & _ & Hnd). apply NoDup_cons in Hnd as [Hnotin _].
  assert (key' ≠ key) as Hne.
  { intros ->. apply Hnotin. cbn [fst].
    apply list_elem_of_fmap. by exists (key, value'). }
  unfold stores_under.
  destruct (endswith key' "__offsets") eqn:Hoff.
  - intros [= Heq]. apply Hne. by apply (drop_suffix_inj _ _ "__offsets").
  - destruct (endswith key' "__values"); [done |].
    intros [= ->]. apply dict_get_None in Hcol. apply Hcol.
    unfold dict_keys. rewrite fmap_app, fmap_cons. apply elem_of_app. right. right.
    apply list_elem_of_fmap. by exists (drop_suffix key "__offsets", value').
Qed.

End padded.

(** C2, as stated, fails: a configured [max_sequence_length] of 0 is not
    used; the column is padded to the longest row of the batch, here 2. *)
Lemma configured_zero_is_not_used :
  ∃ out t,
    forward (mkTabularPadding [mkColumn "a" [SEQUENCE]] (Some 0)) []
            (mkBatch [("a__values", T1 [1; 2; 3; 4]); ("a__offsets", T1 [0; 2; 4])]
                     None None)
    = Ok out
    ∧ dict_get "a" (features out) = Some t
    ∧ shape t = [2; 2]%nat
    ∧ shape t ≠ [2; 0]%nat.
Proof. eexists _, _. by vm_compute. Qed.

(** C2, amended.  When [forward] returns, a ragged column of the schema,
    given by [rows + 1] offsets and its values (and not also present as a
    dense column), is stored as a dense tensor of shape [(rows, L)]: [L] is
    the configured [max_sequence_length] when one other than 0 was given,
    and otherwise ([None] or 0) the longest row observed in the offsets
    columns of the batch; every row holds its values from the left, cut or
    filled with 0 on the right to [L] entries. *)
Theorem forward_pads_ragged_column (self : TabularPadding) (inputs : dict Tensor)
    (batch out : Batch) (key : string) (offs vals : list Z) :
  forward self inputs batch = Ok out →
  NoDup (dict_keys (features batch)) →
  endswith key "__offsets" = true →
  dict_get key (features batch) = Some (T1 offs) →
  dict_get (drop_suffix key "__offsets" +:+ "__values") (features batch)
  = Some (T1 vals) →
  ragged_wf vals offs = true →
  str_in (drop_suffix key "__offsets") (tp_features self) = true →
  dict_get (drop_suffix key "__offsets") (features batch) = None →
  ∃ (L : Z) (t : Tensor),
    L = match max_sequence_length self with
        | Some l =>
            if l =? 0 then max_listZ 0 (observed_row_lengths (features batch)) else l
        | None => max_listZ 0 (observed_row_lengths (features batch))
        end
    ∧ dict_get (drop_suffix key "__offsets") (features out) = Some t
    ∧ shape t = [(length offs - 1)%nat; Z.to_nat L]
    ∧ t = T2 (Z.to_nat L) (resize (Z.to_nat L) 0 <$> ragged_rows vals offs).
Proof.
  intros Hrun Hnd Hkey Hoffs Hvals Hwf Hcol Hdense.
  destruct (forward_Ok _ _ _ _ Hrun) as (L & lens & HL & _ & Hfold).
  destruct (ragged_wf_rows vals offs Hwf) as (Hne & Hv & Ho).
  apply dict_get_elem_of, list_elem_of_split in Hoffs as (l1 & l2 & Hsplit).
  pose proof (later_rounds_store_elsewhere _ _ _ _ _ Hsplit Hnd Hkey Hdense) as Hlater.
  rewrite Hsplit in Hfold at 2. rewrite foldM_result_app in Hfold.
  apply bind_Ok in Hfold as (acc1 & _ & Hfold). cbn [foldM_result] in Hfold.
  apply bind_Ok in Hfold as (acc2 & Hstep & Hfold).
  unfold pad_feature in Hstep. rewrite Hkey, Hcol in Hstep.
  unfold dict_item in Hstep. rewrite Hvals in Hstep. cbn [mbind result_bind] in Hstep.
  apply bind_Ok in Hstep as (t & Hpad & [= <-]).
  assert (0 ≤ L) as HL0.
  { by eapply (pad_ragged_Ok_nonneg (ragged_rows vals offs) (T1 vals) (T1 offs));
      simpl; rewrite ?Hv, ?Ho. }
  rewrite (pad_ragged_rows (ragged_rows vals offs)) in Hpad;
    [| done | by simpl; rewrite Hv | by simpl; rewrite Ho | done].
  injection Hpad as <-.
  exists L, (T2 (Z.to_nat L) (resize (Z.to_nat L) 0 <$> ragged_rows vals offs)).
  split; [by apply padding_length_spec |]. split; [| split; [| done]].
  - rewrite (fold_pad_feature_other _ _ _ _ _ _ _ _ Hfold Hlater).
    apply dict_get_set_eq.
  - cbn [shape]. rewrite length_fmap. do 2 f_equal.
    rewrite <- Ho at 2. unfold ragged_offsets. rewrite length_offsets_from. lia.
Qed.

Lemma forward_pads_ragged_column_witness :
  ∃ out,
    forward (mkTabularPadding [mkColumn "a" [SEQUENCE]; mkColumn "u" [CONTINUOUS]] (Some 3))
            [] (mkBatch [("a__values", T1 [1; 2; 3; 4]); ("a__offsets", T1 [0; 1; 4]);
                         ("u", T1 [9; 9])] None None)
    = Ok out
    ∧ dict_get "a" (features out) = Some (T2 3 [[1; 0; 0]; [2; 3; 4]]).
Proof.
  eexists. split; [by vm_compute |].
  destruct (forward_pads_ragged_column
              (mkTabularPadding [mkColumn "a" [SEQUENCE]; mkColumn "u" [CONTINUOUS]] (Some 3))
              [] (mkBatch [("a__values", T1 [1; 2; 3; 4]); ("a__offsets", T1 [0; 1; 4]);
                           ("u", T1 [9; 9])] None None)
              _ "a__offsets" [0; 1; 4] [1; 2; 3; 4] eq_refl)
    as (L & t & -> & Hget & _ & ->);
    [apply (bool_decide_unpack _); by vm_compute
    | reflexivity | reflexivity | reflexivity | reflexivity | reflexivity | reflexivity |].
  exact Hget.
Defined.

Example spec_pad_ragged_ex :
  spec_pad_ragged [1; 2; 3; 4; 5] [0; 2; 5] 4 = T2 4 [[1; 2; 0; 0]; [3; 4; 5; 0]].
Proof. vm_compute. reflexivity. Qed.

End TorchFacts.

Lemma bind_Ok_r {A} (m : result A) : m ≫= Ok = m.
Proof. by destruct m. Qed.

(** ** [TransformerBlock] *)

Module TransformerFacts.
Import Transformer.

Section transformer.
Context {T R V K : Type}.
Variable to_tensor : R → T.
Variable inputs_embeds : T → V.

Abbreviation Block := (@TransformerBlock V K).

Lemma to_call_order (self : Block) :
  to_call self = option_list (pre self) ++ [transformer self] ++ option_list (post self).
Proof. unfold to_call. by destruct (pre self), (post self). Qed.

Lemma call_sequentially_app (l1 l2 : list (@Layer V K)) (x : V) (kwargs : K) :
  call_sequentially (l1 ++ l2) x kwargs
  = call_sequentially l1 x kwargs ≫= λ y, call_sequentially l2 y kwargs.
Proof.
  unfold call_sequentially. revert x; induction l1 as [|l l1 IH]; intros x; [done |].
  simpl. destruct (l kwargs x) as [y|e]; simpl; [apply IH | done].
Qed.

End transformer.

(** C8.  Calling a transformer block applies, in this order, the pre block
    when there is one, the transformer layer, and the post block when there
    is one, each to the output of the stage before it (the first to the
    inputs, made dense and wrapped as [inputs_embeds]); what the last stage
    returns is the result of the call. *)
Theorem call_chains_stages {T R V K : Type} (to_tensor : R → T) (inputs_embeds : T → V)
    (self : @TransformerBlock V K) (inputs : @Inputs T R) (kwargs : K) :
  call to_tensor inputs_embeds self inputs kwargs
  = (let x := inputs_embeds (match inputs with
                             | Ragged r => to_tensor r
                             | Dense t => t
                             end) in
     x1 ← match pre self with Some p => p kwargs x | None => Ok x end;
     x2 ← transformer self kwargs x1;
     match post self with Some p => p kwargs x2 | None => Ok x2 end).
Proof.
  unfold call. rewrite to_call_order, !call_sequentially_app. cbn zeta.
  set (x := inputs_embeds _). unfold call_sequentially.
  destruct (pre self) as [p|]; simpl.
  - rewrite bind_Ok_r. destruct (p kwargs x) as [x1|e]; simpl; [| done].
    destruct (transformer self kwargs x1) as [x2|e]; simpl; [| done].
    destruct (post self) as [q|]; simpl; [apply bind_Ok_r | done].
  - destruct (transformer self kwargs x) as [x2|e]; simpl; [| done].
    destruct (post self) as [q|]; simpl; [apply bind_Ok_r | done].
Qed.

End TransformerFacts.

(** ** [TabularInputBlock] *)

Module TabularInputFacts.
Import TabularInput.

Lemma registry_get_register name fn reg :
  registry_get (register name fn reg) name = Some fn.
Proof. unfold registry_get, register. apply lookup_insert_eq. Qed.

Lemma registry_get_defaults : registry_get initializers "defaults" = Some defaults.
Proof. apply registry_get_register. Qed.

(** C5, as stated, fails: the empty name is not registered, yet the block is
    constructed, without routes and without an error. *)
Lemma empty_name_constructs_without_routes :
  registry_get initializers "" = None
  ∧ ∃ block, TabularInputBlock initializers [] (Some (InitName "")) None = Ok block
             ∧ routes block = [].
Proof.
  split; [by vm_compute |]. exists (new_router []). by vm_compute.
Qed.

(** The error for a name that is not registered does not name it. *)
Lemma unknown_name_message :
  TabularInputBlock initializers [] (Some (InitName "embeddings")) None
  = Raise (ValueError "Initializer None not found.")
  ∧ contains "embeddings" "Initializer None not found." = false.
Proof. split; by vm_compute. Qed.

(** C5, amended.  For a name other than the empty string: when it is not
    registered, constructing the block with [init] set to it raises a
    [ValueError] and no block is constructed; when it is registered, the
    registered initializer is applied to the new block, before the
    aggregation is appended. *)
Theorem init_by_name (reg : Registry) (schema : Schema) (name : string)
    (agg : option string) :
  name ≠ "" →
  (registry_get reg name = None →
     ∃ msg, TabularInputBlock reg schema (Some (InitName name)) agg
            = Raise (ValueError msg))
  ∧ (∀ fn, registry_get reg name = Some fn →
       TabularInputBlock reg schema (Some (InitName name)) agg
       = fn (new_router schema) ≫= λ self,
           match agg with
           | None => Ok self
           | Some a => if String.eqb a "" then Ok self else Ok (append a self)
           end).
Proof.
  intros Hne. unfold TabularInputBlock.
  apply String.eqb_neq in Hne. rewrite Hne. split.
  - intros ->. by eexists.
  - by intros fn ->.
Qed.

Lemma init_by_name_witness :
  TabularInputBlock initializers [] (Some (InitName "defaults")) (Some "concat")
  = Ok (mkBlock [] [(CONTINUOUS, None);
                    (CATEGORICAL, Some "EmbeddingTables(seq_combiner=mean)")]
                ["concat"]).
Proof.
  destruct (init_by_name initializers [] "defaults" (Some "concat")) as [_ Hreg];
    [done |].
  rewrite (Hreg defaults registry_get_defaults). reflexivity.
Defined.

End TabularInputFacts.

(** ** Negative sampling *)

Module SamplingFacts.
Import Sampling.

Section check.
Context {Row : Type}.
Implicit Types (items : @ItemCollection Row).

Lemma check_loop (n : nat) (meta : dict (TFTensor Row)) :
  (Forall (λ feat, first_dim feat.2 = n) meta →
     foldM_result (λ _ feat, assert_equal n (first_dim feat.2)) () meta = Ok ())
  ∧ (¬ Forall (λ feat, first_dim feat.2 = n) meta →
     foldM_result (λ _ feat, assert_equal n (first_dim feat.2)) () meta
     = Raise InvalidArgumentError).
Proof.
  induction meta as [|feat meta [IH1 IH2]]; [split; [done | intros []; constructor] |].
  cbn [foldM_result].
  destruct (decide (n = first_dim feat.2)) as [Heq|Hne].
  - replace (assert_equal n (first_dim feat.2)) with (@Ok unit ())
      by (unfold assert_equal; by rewrite <- Heq, Nat.eqb_refl).
    simpl. split.
    + intros [_ Hall]%Forall_cons. by apply IH1.
    + intros Hnot. apply IH2. intros Hall. apply Hnot. by constructor.
  - replace (assert_equal n (first_dim feat.2)) with (@Raise unit InvalidArgumentError)
      by (unfold assert_equal; by apply Nat.eqb_neq in Hne as ->).
    simpl. split; [| done]. intros [Heq _]%Forall_cons. by destruct Hne.
Qed.

End check.

(** C4, as stated, fails: a collection whose metadata has three rows for two
    ids is one [_check_inputs_batch_sizes] rejects, but [ItemSampler.call]
    does not run the check: with a sampler whose [add] does not either, the
    collection is taken and sampled from. *)
Lemma call_takes_mismatched_items :
  let items := mkItemCollection [1; 2] [("price", [10; 20; 30])] in
  _check_inputs_batch_sizes items = Raise InvalidArgumentError
  ∧ call (sampler := keep_last) (mkItemCollection [] []) items true
    = Ok (items, items)
  ∧ call (sampler := keep_last) (mkItemCollection [7] []) items false
    = Ok (mkItemCollection [7] [], mkItemCollection [7] []).
Proof. by vm_compute. Qed.

(** C4, amended.  [_check_inputs_batch_sizes] succeeds when every metadata
    tensor has the first dimension of the ids and raises otherwise;
    [ItemSampler.call] does not call it: it hands the items to [add] when
    training, and returns what [sample] returns. *)
Theorem check_and_call {Row St : Type} `{!@ItemSampler Row St}
    (self : St) (items : @ItemCollection Row) :
  (Forall (λ feat, first_dim feat.2 = first_dim (ids items)) (metadata items) →
     _check_inputs_batch_sizes items = Ok ())
  ∧ (¬ Forall (λ feat, first_dim feat.2 = first_dim (ids items)) (metadata items) →
     _check_inputs_batch_sizes items = Raise InvalidArgumentError)
  ∧ call self items false = (sample self ≫= λ sampled, Ok (self, sampled))
  ∧ call self items true
    = (add self items ≫= λ self', sample self' ≫= λ sampled, Ok (self', sampled)).
Proof.
  unfold _check_inputs_batch_sizes.
  destruct (check_loop (first_dim (ids items)) (metadata items)) as [H1 H2].
  repeat split; done.
Qed.


Section negatives.
Context {Row Gen : Type}.
Variable uniform : Gen → option Z → nat → Z → list Z * Gen.
Variable from_features : Schema → dict (TFTensor Row) → result (@ItemCollection Row).
Implicit Types (val : TFTensor Row) (ids : list Z)
  (self : AddRandomNegativesToBatch) (items : @ItemCollection Row).

Lemma gather_in_range val ids :
  Forall (λ i, 0 ≤ i < Z.of_nat (first_dim val)) ids →
  gather val ids = Ok (gathered val ids) ∧ length (gathered val ids) = length ids.
Proof.
  unfold gather, gathered.
  induction 1 as [|i ids Hi Hids [IH1 IH2]]; [done |].
  cbn [mapM_result omap list_omap].
  destruct (Z.ltb_spec i 0) as [?|_]; [lia |].
  destruct (lookup_lt_is_Some_2 val (Z.to_nat i)) as [row Hrow];
    [unfold first_dim in Hi; lia |].
  rewrite Hrow. simpl. change (list_omap _ _ ?f ?l) with (omap f l).
  rewrite IH1. simpl. by rewrite IH2.
Qed.

Lemma length_tf_repeat val (n : nat) :
  length (tf_repeat val n) = (length val * n)%nat.
Proof.
  unfold tf_repeat. induction val as [|row val IH]; [done |].
  rewrite bind_cons, length_app, length_replicate, IH. simpl. lia.
Qed.

Lemma sample_ids_spec self (g : Gen) (batch_size : nat) items :
  uniform_contract uniform →
  ∃ ids g', sample_ids uniform self g batch_size items = Ok (ids, g')
    ∧ length ids = (n_per_positive self * batch_size)%nat
    ∧ Forall (λ i, 0 ≤ i < Z.of_nat batch_size) ids.
Proof.
  intros Hu. unfold sample_ids, random_uniform.
  destruct (Hu g (seed self) (n_per_positive self * batch_size)%nat
               (Z.of_nat batch_size)) as [Hlen Hrange].
  destruct (uniform g (seed self) _ _) as [ids g'] eqn:Hdraw. simpl in *.
  destruct batch_size as [|bs].
  - rewrite Nat.mul_0_r in *. simpl. exists ids, g'.
    split; [done |]. split; [done |].
    apply nil_length_inv in Hlen as ->. constructor.
  - replace (Z.of_nat (S bs) <=? 0) with false by (symmetry; apply Z.leb_gt; lia).
    rewrite andb_false_r. exists ids, g'. split; [done |]. split; [done |].
    apply Hrange. lia.
Qed.

Lemma fold_add_negatives self ids (bs : nat) (inputs acc : dict (TFTensor Row)) :
  Forall (λ i, 0 ≤ i < Z.of_nat bs) ids →
  Forall (λ kv, first_dim kv.2 = bs) inputs →
  NoDup (dict_keys acc ++ dict_keys inputs) →
  foldM_result (add_negatives self ids) acc inputs
  = Ok (acc ++ ((λ kv, (kv.1, output_of self ids kv.1 kv.2)) <$> inputs)).
Proof.
  intros Hids. revert acc; induction inputs as [|[name val] inputs IH];
    intros acc Hall Hnd.
  - simpl. by rewrite app_nil_r.
  - apply Forall_cons in Hall as [Hval Hall]. simpl in Hval.
    assert (name ∉ dict_keys acc) as Hfresh.
    { unfold dict_keys in *. simpl in Hnd. apply NoDup_app in Hnd as (_ & Hd & _).
      intros Hin. apply (Hd name Hin). left. }
    cbn [foldM_result add_negatives fmap list_fmap]. unfold output_of at 1. simpl.
    destruct (str_in name (column_names (item_schema self))).
    + destruct (gather_in_range val ids) as [-> _]; [by rewrite Hval |].
      simpl. rewrite dict_set_fresh by done. rewrite IH; [| done |].
      * by rewrite <- (assoc_L (++)).
      * unfold dict_keys in *. rewrite fmap_app. simpl.
        rewrite <- (assoc_L (++)). done.
    + simpl. rewrite dict_set_fresh by done. rewrite IH; [| done |].
      * by rewrite <- (assoc_L (++)).
      * unfold dict_keys in *. rewrite fmap_app. simpl.
        rewrite <- (assoc_L (++)). done.
Qed.

End negatives.

(** C10.  For a positive batch size and a positive number of negatives per
    positive, every id [sample_ids] draws lies in [[0, batch_size)], so that
    gathering the negatives from a column of [batch_size] rows never leaves
    its rows. *)
Theorem sampled_ids_in_range {Row Gen : Type}
    (uniform : Gen → option Z → nat → Z → list Z * Gen)
    (self : AddRandomNegativesToBatch) (g : Gen) (batch_size : nat)
    (items : @ItemCollection Row) :
  uniform_contract uniform →
  (0 < batch_size)%nat → (0 < n_per_positive self)%nat →
  ∃ ids g',
    sample_ids uniform self g batch_size items = Ok (ids, g')
    ∧ length ids = (n_per_positive self * batch_size)%nat
    ∧ Forall (λ i, 0 ≤ i < Z.of_nat batch_size) ids
    ∧ ∀ val : TFTensor Row, first_dim val = batch_size →
        ∃ negatives, gather val ids = Ok negatives
                     ∧ length negatives = length ids
                     ∧ Forall (λ row, row ∈ val) negatives.
Proof.
  intros Hu _ _.
  destruct (sample_ids_spec uniform self g batch_size items Hu)
    as (ids & g' & Hrun & Hlen & Hrange).
  exists ids, g'. repeat split; try done.
  intros val Hval.
  destruct (gather_in_range val ids) as [Hg Hl]; [by rewrite Hval |].
  exists (gathered val ids). repeat split; try done.
  apply Forall_forall. intros row Hin. unfold gathered in Hin.
  apply list_elem_of_omap in Hin as (i & _ & Hi).
  by eapply list_elem_of_lookup_2.
Qed.

Lemma counter_uniform_contract : uniform_contract counter_uniform.
Proof.
  intros g seed k m. unfold counter_uniform; simpl. split.
  - by rewrite length_fmap, length_seq.
  - intros Hm. apply Forall_fmap, Forall_forall. intros i _. simpl.
    apply Z.mod_pos_bound. lia.
Qed.

Lemma sampled_ids_in_range_witness :
  ∃ ids g',
    sample_ids counter_uniform (mkAddRandomNegatives 2 [] None) 5 3
               (mkItemCollection [10; 11; 12] []) = Ok (ids, g')
    ∧ ids = [2; 0; 1; 2; 0; 1].
Proof.
  destruct (sampled_ids_in_range counter_uniform (mkAddRandomNegatives 2 [] None) 5 3
              (mkItemCollection [10; 11; 12] []) counter_uniform_contract)
    as (ids & g' & Hrun & _); [simpl; lia | simpl; lia |].
  exists ids, g'. split; [exact Hrun |].
  vm_compute in Hrun. by injection Hrun as <- _.
Defined.

(** C9.  For a batch with at least one feature whose tensors all have
    [batch_size] rows, [AddRandomNegativesToBatch.call] returns a mapping
    over the same names in which every tensor has
    [batch_size * (n_per_positive + 1)] rows: an item column is its rows
    followed by [n_per_positive * batch_size] rows gathered from it, any
    other column is each of its rows [n_per_positive + 1] times. *)
Theorem negatives_call_aligned {Row Gen : Type}
    (uniform : Gen → option Z → nat → Z → list Z * Gen)
    (from_features : Schema → dict (TFTensor Row) → result (@ItemCollection Row))
    (self : AddRandomNegativesToBatch) (g : Gen)
    (inputs : dict (TFTensor Row)) (batch_size : nat) (items : @ItemCollection Row) :
  uniform_contract uniform →
  from_features (item_schema self) inputs = Ok items →
  inputs ≠ [] →
  NoDup (dict_keys inputs) →
  Forall (λ kv, first_dim kv.2 = batch_size) inputs →
  ∃ outputs g' sampled_ids,
    negatives_call uniform from_features self g inputs = Ok (outputs, g')
    ∧ dict_keys outputs = dict_keys inputs
    ∧ Forall (λ kv, first_dim kv.2 = (batch_size * (n_per_positive self + 1))%nat)
             outputs
    ∧ length sampled_ids = (n_per_positive self * batch_size)%nat
    ∧ ∀ name val, dict_get name inputs = Some val →
        ∃ negatives,
          gather val sampled_ids = Ok negatives
          ∧ length negatives = (n_per_positive self * batch_size)%nat
          ∧ dict_get name outputs
            = Some (if str_in name (column_names (item_schema self))
                    then val ++ negatives
                    else tf_repeat val (n_per_positive self + 1)).
Proof.
  intros Hu Hitems Hne Hnd Hall.
  unfold negatives_call.
  destruct inputs as [|[name0 val0] inputs'] eqn:Hin; [done |].
  cbn [dict_values fmap list_fmap snd mbind result_bind]. rewrite <- Hin in *.
  assert (first_dim val0 = batch_size) as Hbs.
  { rewrite Hin in Hall. by apply Forall_cons in Hall as [? _]. }
  rewrite Hbs, Hitems. cbn [mbind result_bind].
  destruct (sample_ids_spec uniform self g batch_size items Hu)
    as (ids & g' & -> & Hlen & Hrange).
  cbn [mbind result_bind].
  rewrite (fold_add_negatives self ids batch_size inputs []) by done.
  cbn [mbind result_bind app].
  eexists _, g', ids. split; [done |]. split; [| split; [| split; [done |]]].
  - unfold dict_keys. rewrite <- list_fmap_compose. done.
  - apply Forall_fmap. eapply Forall_impl; [exact Hall |].
    intros [name val] Hval. simpl in *. unfold output_of.
    destruct (str_in name _).
    + destruct (gather_in_range val ids) as [_ Hl]; [by rewrite Hval |].
      unfold first_dim in *. rewrite length_app, Hl, Hlen, Hval. lia.
    + unfold first_dim in *. by rewrite length_tf_repeat, Hval.
  - intros name val Hget.
    assert (first_dim val = batch_size) as Hval.
    { apply dict_get_elem_of in Hget. rewrite Forall_forall in Hall.
      by apply (Hall (name, val)). }
    destruct (gather_in_range val ids) as [Hg Hl]; [by rewrite Hval |].
    exists (gathered val ids). split; [done |]. split; [congruence |].
    rewrite (dict_get_fmap (output_of self ids)), Hget. done.
Qed.

Lemma negatives_call_aligned_witness :
  ∃ outputs g',
    negatives_call counter_uniform select_items
      (new_AddRandomNegativesToBatch
         [mkColumn "item_id" [ITEM; ITEM_ID]; mkColumn "user_id" [USER]] 2 None)
      4 [("user_id", [7; 8]); ("item_id", [20; 21])] = Ok (outputs, g')
    ∧ outputs = [("user_id", [7; 7; 7; 8; 8; 8]);
                 ("item_id", [20; 21; 20; 21; 20; 21])].
Proof.
  destruct (negatives_call_aligned counter_uniform select_items
              (new_AddRandomNegativesToBatch
                 [mkColumn "item_id" [ITEM; ITEM_ID]; mkColumn "user_id" [USER]] 2 None)
              4 [("user_id", [7; 8]); ("item_id", [20; 21])] 2
              (mkItemCollection [20; 21] []) counter_uniform_contract)
    as (outputs & g' & ids & Hrun & _).
  - reflexivity.
  - done.
  - apply (bool_decide_unpack _). by vm_compute.
  - repeat constructor.
  - exists outputs, g'. split; [exact Hrun |].
    vm_compute in Hrun. by injection Hrun as <- _.
Defined.

End SamplingFacts.

(** * Further properties of the code *)

Module TorchExtra.
Import Torch TorchFacts.

(** ** [_squeeze] and [_pad_dense_tensor] *)

(** [_squeeze] keeps the entries of a tensor, in order, and squeezing twice
    is squeezing once. *)
Lemma squeeze_keeps_entries (t : Tensor) :
  entries (_squeeze t) = entries t ∧ _squeeze (_squeeze t) = _squeeze t.
Proof.
  destruct t as [x|xs|c rows]; simpl; [done | done |].
  destruct (Nat.eqb_spec c 1) as [->|Hc]; simpl; [done |].
  by apply Nat.eqb_neq in Hc as ->.
Qed.

Lemma tensor_ok_rows (c : nat) (rows : list (list Z)) :
  tensor_ok (T2 c rows) = true ↔ Forall (λ r, length r = c) rows.
Proof.
  simpl. induction rows as [|r rows IH]; simpl.
  - split; [constructor | done].
  - rewrite andb_true_iff, Forall_cons, IH, Nat.eqb_eq. done.
Qed.

Lemma pad_right_rows (c : nat) (rows : list (list Z)) (L : Z) :
  Forall (λ r, length r = c) rows → 0 ≤ L →
  F_pad_right c rows (L - Z.of_nat c)
  = Ok (T2 (Z.to_nat L) (resize (Z.to_nat L) 0 <$> rows)).
Proof.
  intros Hrows HL.
  assert (resize c 0 <$> rows = rows) as Hid.
  { rewrite <- (list_fmap_id rows) at 2. apply Forall_fmap_ext_1.
    eapply Forall_impl; [exact Hrows |]. intros r <-. apply resize_all. }
  rewrite <- Hid at 1. apply pad_rows_resize; [| done].
  eapply Forall_impl; [exact Hrows |]. intros r <-. done.
Qed.

(** A rank-2 tensor padded to a length [L ≥ 0] keeps its rows and gets [L]
    columns: each row is cut to [L] entries or filled with 0 on the right. *)
Theorem pad_dense_rank2 (c : nat) (rows : list (list Z)) (L : Z) :
  tensor_ok (T2 c rows) = true → 0 ≤ L →
  ∃ rows',
    _pad_dense_tensor (T2 c rows) L = Ok (T2 (Z.to_nat L) rows')
    ∧ tensor_ok (T2 (Z.to_nat L) rows') = true
    ∧ length rows' = length rows
    ∧ ∀ (i j : nat) row, rows !! i = Some row → (j < Z.to_nat L)%nat →
        rows' !! i ≫= (.!! j) = Some (default 0 (row !! j)).
Proof.
  intros Hok%tensor_ok_rows HL.
  exists (resize (Z.to_nat L) 0 <$> rows). split; [| split; [| split]].
  - unfold _pad_dense_tensor. by apply pad_right_rows.
  - apply tensor_ok_rows, Forall_fmap, Forall_true. intros r. apply length_resize.
  - by rewrite length_fmap.
  - intros i j row Hrow Hj. rewrite list_lookup_fmap, Hrow. simpl.
    destruct (row !! j) as [x|] eqn:Hx; simpl.
    + rewrite lookup_resize; [done | done |]. by apply lookup_lt_Some in Hx.
    + apply lookup_resize_new; [| done]. by apply lookup_ge_None in Hx.
Qed.

Lemma pad_dense_rank2_witness :
  ∃ rows', _pad_dense_tensor (T2 3 [[1; 2; 3]; [4; 5; 6]]) 2 = Ok (T2 2 rows')
           ∧ rows' = [[1; 2]; [4; 5]].
Proof.
  destruct (pad_dense_rank2 3 [[1; 2; 3]; [4; 5; 6]] 2) as (rows' & Hrun & _);
    [reflexivity | lia |].
  exists rows'. split; [exact Hrun |]. vm_compute in Hrun. by injection Hrun as <-.
Defined.

Lemma F_pad_right_negative (c : nat) (rows : list (list Z)) (L : Z) :
  L < 0 → F_pad_right c rows (L - Z.of_nat c) = Raise RuntimeError.
Proof.
  intros HL. unfold F_pad_right.
  destruct (Z.leb_spec 0 (L - Z.of_nat c)); [lia |].
  destruct (Z.leb_spec 0 (Z.of_nat c + (L - Z.of_nat c))); [lia | done].
Qed.

(** A negative length makes the padding of a rank-2 tensor raise; a tensor
    of another rank is returned as it is, whatever the length. *)
Theorem pad_dense_negative (t : Tensor) (L : Z) :
  L < 0 →
  _pad_dense_tensor t L
  = match t with T2 _ _ => Raise RuntimeError | _ => Ok t end.
Proof.
  intros HL. destruct t as [x|xs|c rows]; simpl; [done | done |].
  by apply F_pad_right_negative.
Qed.

Lemma pad_dense_negative_witness :
  _pad_dense_tensor (T2 2 [[1; 2]]) (-1) = Raise RuntimeError
  ∧ _pad_dense_tensor (T1 [1; 2]) (-1) = Ok (T1 [1; 2]).
Proof.
  split.
  - apply (pad_dense_negative (T2 2 [[1; 2]]) (-1)). lia.
  - apply (pad_dense_negative (T1 [1; 2]) (-1)). lia.
Defined.

(** Padding a rank-2 tensor to [L] and the result to [L'] is padding it to
    [L'], as long as the first step cut nothing the second would keep. *)
Theorem pad_dense_twice (c : nat) (rows : list (list Z)) (L L' : Z) :
  tensor_ok (T2 c rows) = true → 0 ≤ L → 0 ≤ L' →
  L' ≤ L ∨ Z.of_nat c ≤ L →
  _pad_dense_tensor (T2 c rows) L ≫= (λ t, _pad_dense_tensor t L')
  = _pad_dense_tensor (T2 c rows) L'.
Proof.
  intros Hok%tensor_ok_rows HL HL' Hcase.
  change (_pad_dense_tensor (T2 c rows) L) with (F_pad_right c rows (L - Z.of_nat c)).
  change (_pad_dense_tensor (T2 c rows) L') with (F_pad_right c rows (L' - Z.of_nat c)).
  rewrite (pad_right_rows c rows L), (pad_right_rows c rows L') by done.
  cbn [mbind result_bind].
  change (_pad_dense_tensor (T2 ?k ?rs) L') with (F_pad_right k rs (L' - Z.of_nat k)).
  rewrite (pad_right_rows (Z.to_nat L)); [| | done].
  2:{ apply Forall_fmap, Forall_true. intros r. apply length_resize. }
  do 2 f_equal. rewrite <- list_fmap_compose.
  apply Forall_fmap_ext_1. eapply Forall_impl; [exact Hok |].
  intros r Hr. simpl in *. destruct Hcase as [Hle|Hle].
  - apply resize_resize. lia.
  - rewrite (resize_ge r (Z.to_nat L)) by lia.
    destruct (decide (Z.to_nat L ≤ Z.to_nat L')%nat) as [Hll|Hll].
    + rewrite (resize_ge r) by lia. rewrite resize_ge by (rewrite length_app, length_replicate; lia).
      rewrite length_app, length_replicate, <- (assoc_L (++)), <- replicate_add.
      do 2 f_equal. lia.
    + rewrite <- (resize_ge r (Z.to_nat L)) by lia. apply resize_resize. lia.
Qed.

Lemma pad_dense_twice_witness :
  _pad_dense_tensor (T2 2 [[1; 2]]) 4 ≫= (λ t, _pad_dense_tensor t 3)
  = Ok (T2 3 [[1; 2; 0]]).
Proof.
  rewrite (pad_dense_twice 2 [[1; 2]] 4 3); [reflexivity | reflexivity | lia | lia |].
  left. lia.
Defined.

(** ** [_get_indices] *)

Lemma coords_rows_from s (rs : list (list Z)) :
  Forall (λ ix : Z * Z, s ≤ ix.1) (coords s rs).
Proof.
  revert s; induction rs as [|r rs IH]; intros s; [constructor |].
  cbn [coords]. apply Forall_app; split.
  - apply Forall_fmap, Forall_true. intros j. simpl. lia.
  - eapply Forall_impl; [apply IH |]. simpl; intros; lia.
Qed.

Lemma coords_NoDup s (rs : list (list Z)) : NoDup (coords s rs).
Proof.
  revert s; induction rs as [|r rs IH]; intros s; [constructor |].
  cbn [coords]. apply NoDup_app. split; [| split; [| apply IH]].
  - apply NoDup_fmap_2; [| apply NoDup_seqZ]. by intros j j' [= ->].
  - intros ix Hin Hin'. apply list_elem_of_fmap in Hin as (j & -> & _).
    pose proof (coords_rows_from (s + 1) rs) as Hrows.
    rewrite Forall_forall in Hrows. specialize (Hrows _ Hin'). simpl in Hrows. lia.
Qed.

(** For a ragged column, [_get_indices] returns one coordinate pair per
    value, no two of them equal, each inside the (rows, longest row) size
    of the sparse tensor. *)
Theorem get_indices_distinct (values offsets : list Z) :
  ragged_wf values offsets = true →
  ∃ indices,
    _get_indices offsets (diff_list offsets) = Ok indices
    ∧ length indices = length values
    ∧ NoDup indices
    ∧ Forall (λ ix : Z * Z, 0 ≤ ix.1 < Z.of_nat (length offsets) - 1
                            ∧ 0 ≤ ix.2 < max_row_length offsets) indices.
Proof.
  intros Hwf. destruct (ragged_wf_rows values offsets Hwf) as (Hne & Hv & Ho).
  set (rs := ragged_rows values offsets) in *.
  exists (coords 0 rs). split; [| split; [| split]].
  - rewrite <- Ho at 1 2. unfold ragged_offsets at 2. rewrite diff_offsets_from.
    apply get_indices_ragged.
  - rewrite length_coords, <- Hv. done.
  - apply coords_NoDup.
  - pose proof (max_row_length_ge rs 0) as Hmax. fold (ragged_offsets rs) in Hmax.
    rewrite Ho in Hmax.
    pose proof (coords_in_bounds 0 rs (max_row_length offsets) ltac:(lia) Hmax) as Hb.
    rewrite forallb_forall in Hb. apply Forall_forall. intros ix Hin.
    apply list_elem_of_In, Hb in Hin. unfold index_in_bounds in Hin.
    rewrite !andb_true_iff, !Z.leb_le, !Z.ltb_lt in Hin.
    assert (length offsets = S (length rs)) as ->
      by (rewrite <- Ho; apply length_offsets_from).
    lia.
Qed.

Lemma get_indices_distinct_witness :
  ∃ indices, _get_indices [0; 2; 3] [2; 1] = Ok indices
             ∧ indices = [(0, 0); (0, 1); (1, 0)].
Proof.
  destruct (get_indices_distinct [7; 8; 9] [0; 2; 3]) as (indices & Hrun & _);
    [reflexivity |].
  exists indices. split; [exact Hrun |]. vm_compute in Hrun. by injection Hrun as <-.
Defined.

Lemma forallb_nonneg_false (l : list Z) (d : Z) :
  d ∈ l → d < 0 → forallb (λ r, 0 <=? r) l = false.
Proof.
  intros Hin Hd. apply not_true_is_false. intros Hall.
  rewrite forallb_forall in Hall. apply list_elem_of_In, Hall, Z.leb_le in Hin. lia.
Qed.

Lemma repeat_interleave_negative (xs repeats : list Z) (d : Z) :
  d ∈ repeats → d < 0 → repeat_interleave xs repeats = Raise RuntimeError.
Proof.
  intros Hin Hd. unfold repeat_interleave.
  destruct (negb _); [done |]. by rewrite (forallb_nonneg_false _ d).
Qed.

Lemma get_indices_negative_diff (offsets : list Z) (d : Z) :
  d ∈ diff_list offsets → d < 0 →
  _get_indices offsets (diff_list offsets) = Raise RuntimeError.
Proof.
  intros Hin Hd. unfold _get_indices, arange.
  pose proof (length_diff_list offsets) as Hlen.
  assert (length (diff_list offsets) ≠ 0)%nat as Hpos.
  { intros H0. apply nil_length_inv in H0. rewrite H0 in Hin. by apply elem_of_nil in Hin. }
  destruct (Z.ltb_spec (Z.of_nat (length offsets) - 1) 0) as [?|_]; [lia |].
  cbn [mbind result_bind].
  by rewrite (repeat_interleave_negative (seqZ _ _) _ d).
Qed.

(** ** [_pad_ragged_tensor]: what it returns and when it raises *)

(** For a ragged column and any length [L ≥ 0], also one below the length of
    a row: the result has [L] columns, entry [(i, j)] is
    [values[offsets[i] + j]] for [j] below both [L] and the length of row
    [i], and 0 for the other [j] below [L].  A row longer than [L] is cut to
    its first [L] values, without an error. *)
Theorem pad_ragged_cuts_or_fills (values offsets : list Z) (L : Z) :
  ragged_wf values offsets = true →
  0 ≤ L →
  ∃ rows,
    _pad_ragged_tensor (T1 values) (T1 offsets) L = Ok (T2 (Z.to_nat L) rows)
    ∧ length rows = (length offsets - 1)%nat
    ∧ ∀ (i : nat) (oi oi' : Z),
        offsets !! i = Some oi → offsets !! S i = Some oi' →
        ∃ row, rows !! i = Some row
          ∧ length row = Z.to_nat L
          ∧ (∀ j : nat, Z.of_nat j < L → Z.of_nat j < oi' - oi →
               ∃ v, values !! (Z.to_nat oi + j)%nat = Some v ∧ row !! j = Some v)
          ∧ (∀ j : nat, Z.of_nat j < L → oi' - oi ≤ Z.of_nat j → row !! j = Some 0).
Proof.
  intros Hwf HL.
  destruct (ragged_wf_rows values offsets Hwf) as (Hne & Hv & Ho).
  set (rs := ragged_rows values offsets) in *.
  exists (resize (Z.to_nat L) 0 <$> rs). split; [| split].
  - apply pad_ragged_rows; simpl; by rewrite ?Hv, ?Ho.
  - rewrite length_fmap, <- Ho. unfold ragged_offsets.
    rewrite length_offsets_from. lia.
  - intros i oi oi' Hi HSi. rewrite <- Ho in Hi, HSi. unfold ragged_offsets in Hi, HSi.
    destruct (lookup_offsets_rows _ _ _ _ _ Hi HSi) as (r & Hr & ->).
    destruct (offsets_from_lookup _ _ _ _ _ Hi Hr) as (Hle & _ & Hval).
    exists (resize (Z.to_nat L) 0 r). split; [| split; [| split]].
    + by rewrite list_lookup_fmap, Hr.
    + apply length_resize.
    + intros j HjL Hj. assert (j < length r)%nat as Hj' by lia.
      destruct (lookup_lt_is_Some_2 r j Hj') as [v Hv'].
      exists v. split.
      * rewrite <- Hv. unfold ragged_values. rewrite <- Hv', <- (Hval j Hj').
        f_equal. lia.
      * rewrite lookup_resize by lia. done.
    + intros j HjL Hj. apply lookup_resize_new; lia.
Qed.

Lemma pad_ragged_cuts_or_fills_witness :
  ∃ rows, _pad_ragged_tensor (T1 [1; 2; 3; 4]) (T1 [0; 3; 4]) 2 = Ok (T2 2 rows)
          ∧ rows = [[1; 2]; [4; 0]].
Proof.
  destruct (pad_ragged_cuts_or_fills [1; 2; 3; 4] [0; 3; 4] 2) as (rows & Hrun & _);
    [reflexivity | lia |].
  exists rows. split; [exact Hrun |]. vm_compute in Hrun. by injection Hrun as <-.
Defined.

(** A negative padding length makes the padding of a ragged column raise. *)
Theorem pad_ragged_negative_length (values offsets : list Z) (L : Z) :
  ragged_wf values offsets = true → L < 0 →
  _pad_ragged_tensor (T1 values) (T1 offsets) L = Raise RuntimeError.
Proof.
  intros Hwf HL. destruct (ragged_wf_rows values offsets Hwf) as (Hne & Hv & Ho).
  destruct (pad_ragged_dense (ragged_rows values offsets) (T1 values) (T1 offsets) L)
    as (m & _ & ->); [done | by simpl; rewrite Hv | by simpl; rewrite Ho |].
  unfold F_pad_right.
  destruct (Z.leb_spec 0 (L - Z.of_nat m)); [lia |].
  destruct (Z.leb_spec 0 (Z.of_nat m + (L - Z.of_nat m))); [lia | done].
Qed.

Lemma pad_ragged_negative_length_witness :
  _pad_ragged_tensor (T1 [1; 2]) (T1 [0; 2]) (-1) = Raise RuntimeError.
Proof. apply (pad_ragged_negative_length [1; 2] [0; 2] (-1)); [reflexivity | lia]. Defined.

(** Offsets that hold no row (fewer than two offsets) make the padding
    raise, whatever the values and the length: the longest row of no rows is
    asked for. *)
Theorem pad_ragged_no_rows (values : Tensor) (offsets : list Z) (L : Z) :
  (length offsets ≤ 1)%nat →
  _pad_ragged_tensor values (T1 offsets) L = Raise RuntimeError.
Proof.
  intros Hlen. unfold _pad_ragged_tensor, _pad_ragged_tensor_with.
  cbn [_squeeze tensor_len diff_first mbind result_bind].
  by destruct offsets as [|o [|o' offsets]]; [| | simpl in Hlen; lia].
Qed.

Lemma pad_ragged_no_rows_witness :
  _pad_ragged_tensor (T1 []) (T1 [0]) 3 = Raise RuntimeError.
Proof. apply (pad_ragged_no_rows (T1 []) [0] 3). simpl. lia. Defined.

(** Offsets that decrease somewhere make the padding raise, whatever the
    values and the length: [_get_indices] cannot repeat a row index a
    negative number of times. *)
Theorem pad_ragged_decreasing (values : Tensor) (offsets : list Z) (L d : Z) :
  d ∈ diff_list offsets → d < 0 →
  _pad_ragged_tensor values (T1 offsets) L = Raise RuntimeError.
Proof.
  intros Hin Hd. unfold _pad_ragged_tensor, _pad_ragged_tensor_with.
  cbn [_squeeze tensor_len diff_first mbind result_bind].
  unfold torch_max. cbn [entries].
  destruct (diff_list offsets) as [|d0 ds] eqn:Hdiff; [by apply elem_of_nil in Hin |].
  cbn [mbind result_bind]. rewrite <- Hdiff in *.
  by rewrite (get_indices_negative_diff offsets d).
Qed.

Lemma pad_ragged_decreasing_witness :
  _pad_ragged_tensor (T1 [1; 2; 3]) (T1 [0; 3; 1]) 4 = Raise RuntimeError.
Proof.
  apply (pad_ragged_decreasing (T1 [1; 2; 3]) [0; 3; 1] 4 (-2)); [| lia].
  vm_compute. set_solver.
Defined.

Lemma length_ri (xs repeats : list Z) :
  length xs = length repeats →
  length (ri xs repeats) = sum_list (Z.to_nat <$> repeats).
Proof.
  unfold ri. revert repeats; induction xs as [|x xs IH]; intros [|r rs] Hlen; try done.
  simpl in *. rewrite length_app, length_replicate, IH by lia. done.
Qed.

Lemma sum_diff_list (l : list Z) (x y : Z) :
  Forall (λ d, 0 ≤ d) (diff_list (x :: l)) → last (x :: l) = Some y →
  Z.of_nat (sum_list (Z.to_nat <$> diff_list (x :: l))) = y - x.
Proof.
  revert x; induction l as [|x1 l IH]; intros x Hmono Hlast.
  - simpl in Hlast. injection Hlast as ->. simpl. lia.
  - rewrite diff_list_cons_cons in *. apply Forall_cons in Hmono as [Hd Hmono].
    rewrite last_cons_cons in Hlast. specialize (IH x1 Hmono Hlast).
    rewrite fmap_cons. simpl. lia.
Qed.

Lemma get_indices_length (offsets : list Z) :
  (1 ≤ length offsets)%nat →
  Forall (λ d, 0 ≤ d) (diff_list offsets) →
  ∃ indices,
    _get_indices offsets (diff_list offsets) = Ok indices
    ∧ length indices = sum_list (Z.to_nat <$> diff_list offsets).
Proof.
  intros Hlen Hmono. unfold _get_indices, arange.
  pose proof (length_diff_list offsets) as Hd.
  destruct (Z.ltb_spec (Z.of_nat (length offsets) - 1) 0) as [?|_]; [lia |].
  cbn [mbind result_bind].
  assert (∀ xs, length xs = length (diff_list offsets) →
                repeat_interleave xs (diff_list offsets) = Ok (ri xs (diff_list offsets)))
    as Hri.
  { intros xs Hxs. unfold repeat_interleave. rewrite Hxs, Nat.eqb_refl.
    apply forallb_nonneg in Hmono. by rewrite Hmono. }
  rewrite (Hri (seqZ _ _)) by (rewrite length_seqZ; lia). cbn [mbind result_bind].
  rewrite (Hri (removelast offsets)) by (rewrite removelast_take, length_take; lia).
  cbn [mbind result_bind].
  destruct (Z.ltb_spec (Z.of_nat (length (ri (removelast offsets) (diff_list offsets)))) 0)
    as [?|_]; [lia |].
  cbn [mbind result_bind]. eexists. split; [done |].
  rewrite length_zip_with, length_zip_with, length_seqZ, Nat2Z.id.
  rewrite !length_ri by (rewrite ?length_seqZ, ?removelast_take, ?length_take; lia).
  lia.
Qed.

(** When the number of values differs from [offsets[-1] - offsets[0]], the
    padding raises: the sparse tensor needs one value per coordinate. *)
Theorem pad_ragged_count_mismatch (values offsets : list Z) (L first_ last_ : Z) :
  offsets !! 0%nat = Some first_ → last offsets = Some last_ →
  (2 ≤ length offsets)%nat →
  Forall (λ d, 0 ≤ d) (diff_list offsets) →
  Z.of_nat (length values) ≠ last_ - first_ →
  _pad_ragged_tensor (T1 values) (T1 offsets) L = Raise RuntimeError.
Proof.
  intros Hfirst Hlast Hlen Hmono Hne.
  unfold _pad_ragged_tensor, _pad_ragged_tensor_with.
  cbn [_squeeze tensor_len diff_first mbind result_bind].
  unfold torch_max. cbn [entries].
  pose proof (length_diff_list offsets) as Hd.
  destruct (diff_list offsets) as [|d0 ds] eqn:Hdiff; [simpl in Hd; lia |].
  cbn [mbind result_bind]. rewrite <- Hdiff in *.
  destruct (get_indices_length offsets) as (ix & -> & Hix); [lia | done |].
  cbn [mbind result_bind]. unfold sparse_coo_tensor.
  destruct offsets as [|x l]; [done |]. simpl in Hfirst. injection Hfirst as ->.
  pose proof (sum_diff_list l first_ last_ Hmono Hlast) as Hsum.
  replace (length ix =? length values)%nat with false; [done |].
  symmetry. apply Nat.eqb_neq. lia.
Qed.

Lemma pad_ragged_count_mismatch_witness :
  _pad_ragged_tensor (T1 [5; 6; 7]) (T1 [1; 3]) 2 = Raise RuntimeError.
Proof.
  apply (pad_ragged_count_mismatch [5; 6; 7] [1; 3] 2 1 3);
    [reflexivity | reflexivity | simpl; lia | repeat constructor; lia | simpl; lia].
Defined.

Lemma pad_right_Ok (c : nat) (rows : list (list Z)) (L : Z) t :
  Forall (λ r, length r = c) rows →
  F_pad_right c rows (L - Z.of_nat c) = Ok t →
  0 ≤ L ∧ t = T2 (Z.to_nat L) (resize (Z.to_nat L) 0 <$> rows).
Proof.
  intros Hrows Hrun. destruct (Z.le_gt_cases 0 L) as [HL|HL].
  - rewrite pad_right_rows in Hrun by done. by injection Hrun as <-.
  - rewrite F_pad_right_negative in Hrun by lia. done.
Qed.

(** Whenever the padding returns, whatever it was given, the result is a
    rank-2 tensor with one row per pair of consecutive offsets and [L]
    entries in every row, and [L] is not negative. *)
Theorem pad_ragged_returns_shape (values offsets t : Tensor) (L : Z) :
  _pad_ragged_tensor values offsets L = Ok t →
  ∃ offs,
    _squeeze offsets = T1 offs
    ∧ shape t = [(length offs - 1)%nat; Z.to_nat L]
    ∧ tensor_ok t = true
    ∧ 0 ≤ L.
Proof.
  unfold _pad_ragged_tensor, _pad_ragged_tensor_with. intros Hrun.
  apply bind_Ok in Hrun as (len & Hlen & Hrun).
  apply bind_Ok in Hrun as (d & Hd & Hrun).
  apply bind_Ok in Hrun as (m & Hm & Hrun).
  destruct (_squeeze offsets) as [|offs|]; [done | | by destruct d].
  simpl in Hlen, Hd. injection Hlen as <-. injection Hd as <-.
  apply bind_Ok in Hrun as (ix & Hix & Hrun).
  apply bind_Ok in Hrun as (s & Hs & Hrun).
  exists offs. split; [done |].
  unfold sparse_coo_tensor in Hs. destruct (_squeeze values) as [|vs|]; try done.
  destruct (negb _); [done |]. destruct (negb _); [done |]. injection Hs as <-.
  unfold to_dense in Hrun. cbn [sp_rows sp_cols sp_indices sp_values] in Hrun.
  set (rows := Z.to_nat (Z.of_nat (length offs) - 1)) in *.
  set (cols := Z.to_nat m) in *.
  destruct (shape_foldl_dense (zip ix vs) (replicate rows (replicate cols 0)) rows cols)
    as [Hr Hc]; [apply length_replicate | apply Forall_replicate, length_replicate |].
  cbn [_pad_dense_tensor] in Hrun.
  apply pad_right_Ok in Hrun as [HL ->]; [| done].
  split; [| split; [| done]].
  - cbn [shape]. rewrite length_fmap, Hr. subst rows. do 2 f_equal. lia.
  - apply tensor_ok_rows, Forall_fmap, Forall_true. intros r. apply length_resize.
Qed.

Lemma pad_ragged_returns_shape_witness :
  shape (T2 3 [[1; 2; 0]; [3; 0; 0]]) = [2; 3]%nat.
Proof.
  destruct (pad_ragged_returns_shape (T1 [1; 2; 3]) (T1 [0; 2; 3])
              (T2 3 [[1; 2; 0]; [3; 0; 0]]) 3)
    as (offs & Hsq & Hshape & _); [reflexivity |].
  simpl in Hsq. injection Hsq as <-. exact Hshape.
Defined.

(** ** [forward] *)

Lemma forward_inv (self : TabularPadding) (inputs : dict Tensor) (batch out : Batch) :
  forward self inputs batch = Ok out →
  ∃ L lens batch_padded targets_padded,
    padding_length self (features batch) = Ok L
    ∧ _get_sequence_lengths self (features batch) = Ok lens
    ∧ check_seq_shapes (dict_values lens) = Ok ()
    ∧ foldM_result (pad_feature self (features batch) lens L) [] (features batch)
      = Ok batch_padded
    ∧ match targets batch with
      | None => Ok None
      | Some tgts => Some <$> foldM_result (pad_target tgts L) [] tgts
      end = Ok targets_padded
    ∧ out = mkBatch batch_padded targets_padded (Some lens).
Proof.
  unfold forward. intros Hrun.
  apply bind_Ok in Hrun as (L & HL & Hrun).
  apply bind_Ok in Hrun as (lens & Hlens & Hrun).
  apply bind_Ok in Hrun as ([] & Hcheck & Hrun).
  apply bind_Ok in Hrun as (bp & Hbp & Hrun).
  apply bind_Ok in Hrun as (tp & Htp & [= <-]).
  by exists L, lens, bp, tp.
Qed.

Lemma batch_max_without_offsets (feats : dict Tensor) (acc : Z) :
  Forall (λ kv, endswith kv.1 "__offsets" = false) feats →
  foldM_result
    (λ batch_max kv,
       let '(key, val) := kv in
       if endswith key "__offsets" then
         d ← diff_first val;
         max_row_length ← torch_max d;
         Ok (Z.max max_row_length batch_max)
       else Ok batch_max)
    acc feats = Ok acc.
Proof.
  induction 1 as [|[key val] feats Hk _ IH]; [done |].
  simpl in Hk. cbn [foldM_result]. by rewrite Hk.
Qed.

Lemma sequence_lengths_without_sequences (self : TabularPadding)
    (feats acc : dict Tensor) :
  Forall (λ kv, endswith kv.1 "__offsets" = false
                ∧ str_in kv.1 (sparse_features self) = false) feats →
  foldM_result
    (λ seq_inputs_lengths kv,
       let '(key, val) := kv in
       if endswith key "__offsets" then
         d ← diff_first val;
         Ok (dict_set (drop_suffix key "__offsets") d seq_inputs_lengths)
       else if str_in key (sparse_features self) then
         Ok (dict_set key (ne_sum_last (padding_idx self) val) seq_inputs_lengths)
       else Ok seq_inputs_lengths)
    acc feats = Ok acc.
Proof.
  induction 1 as [|[key val] feats [Hk Hs] _ IH]; [done |].
  simpl in Hk, Hs. cbn [foldM_result]. by rewrite Hk, Hs.
Qed.

(** A batch without sequence columns (no offsets column, no dense column
    tagged as a sequence) cannot be padded: there are no lengths to compare,
    and stacking the empty list of comparisons raises. *)
Theorem forward_without_sequences (self : TabularPadding) (inputs : dict Tensor)
    (batch : Batch) :
  Forall (λ kv, endswith kv.1 "__offsets" = false
                ∧ str_in kv.1 (sparse_features self) = false) (features batch) →
  forward self inputs batch = Raise RuntimeError.
Proof.
  intros Hnone. unfold forward.
  assert (batch_max_sequence_length (features batch) = Ok 0) as Hmax.
  { apply batch_max_without_offsets.
    eapply Forall_impl; [exact Hnone |]. by intros kv [? _]. }
  assert (_get_sequence_lengths self (features batch) = Ok []) as Hlens.
  { by apply sequence_lengths_without_sequences. }
  assert (∃ L, padding_length self (features batch) = Ok L) as [L ->].
  { unfold padding_length. rewrite Hmax.
    destruct (max_sequence_length self) as [l|]; [| by eexists].
    destruct (l =? 0); by eexists. }
  cbn [mbind result_bind]. rewrite Hlens. done.
Qed.

Lemma forward_without_sequences_witness :
  forward (mkTabularPadding [mkColumn "u" [CONTINUOUS]] (Some 4)) []
          (mkBatch [("u", T1 [1; 2])] None None)
  = Raise RuntimeError.
Proof.
  apply forward_without_sequences. repeat constructor.
Defined.

Lemma dict_keys_set {V} (k k' : string) (v : V) (d : dict V) :
  k' ∈ dict_keys (dict_set k v d) → k' = k ∨ k' ∈ dict_keys d.
Proof.
  unfold dict_keys. induction d as [|[k0 v0] d IH]; simpl.
  - intros ->%list_elem_of_singleton. by left.
  - destruct (String.eqb_spec k k0) as [->|Hne]; simpl.
    + intros [->|Hin]%elem_of_cons; [by left | right; by right].
    + intros [->|Hin]%elem_of_cons; [right; left |].
      destruct (IH Hin) as [->|Hd]; [by left | right; by right].
Qed.

(** The features [forward] returns are columns of the schema: a column of
    the batch that the schema does not name is dropped. *)
Theorem forward_features_in_schema (self : TabularPadding) (inputs : dict Tensor)
    (batch out : Batch) (name : string) :
  forward self inputs batch = Ok out →
  name ∈ dict_keys (features out) →
  str_in name (tp_features self) = true.
Proof.
  intros Hrun. destruct (forward_inv _ _ _ _ Hrun) as (L & lens & bp & tp & _ & _ & _ & Hfold & _ & ->).
  cbn [features]. clear Hrun.
  assert (∀ l acc,
            (∀ k, k ∈ dict_keys acc → str_in k (tp_features self) = true) →
            foldM_result (pad_feature self (features batch) lens L) acc l = Ok bp →
            name ∈ dict_keys bp → str_in name (tp_features self) = true) as Hgen.
  { induction l as [|[key value] l IH]; intros acc Hacc Hl.
    - injection Hl as <-. apply Hacc.
    - cbn [foldM_result] in Hl. apply bind_Ok in Hl as (acc' & Hstep & Hl).
      apply (IH acc'); [| done].
      unfold pad_feature in Hstep.
      destruct (endswith key "__offsets").
      + destruct (str_in (drop_suffix key "__offsets") (tp_features self)) eqn:Hin;
          [| by injection Hstep as <-].
        apply bind_Ok in Hstep as (v & _ & Hstep).
        apply bind_Ok in Hstep as (t & _ & [= <-]).
        intros k [->|Hk]%dict_keys_set; [done | by apply Hacc].
      + destruct (endswith key "__values"); [by injection Hstep as <- |].
        destruct (str_in key (tp_features self)) eqn:Hin; cbn [andb] in Hstep;
          [| by injection Hstep as <-].
        destruct (bool_decide _); [| by injection Hstep as <-].
        apply bind_Ok in Hstep as (t & _ & [= <-]).
        intros k [->|Hk]%dict_keys_set; [done | by apply Hacc]. }
  apply (Hgen _ [] ltac:(by intros k ?%elem_of_nil) Hfold).
Qed.

Lemma forward_features_in_schema_witness :
  str_in "a" (tp_features (mkTabularPadding [mkColumn "a" [SEQUENCE]] None)) = true.
Proof.
  apply (forward_features_in_schema
           (mkTabularPadding [mkColumn "a" [SEQUENCE]] None) []
           (mkBatch [("a__values", T1 [1; 2; 3]); ("a__offsets", T1 [0; 1; 3]);
                     ("z__values", T1 [1; 2; 3]); ("z__offsets", T1 [0; 1; 3])]
                    None None)
           (mkBatch [("a", T2 2 [[1; 0]; [2; 3]])] None
                    (Some [("a", T1 [1; 2]); ("z", T1 [1; 2])]))
           "a"); [reflexivity |].
  vm_compute. set_solver.
Defined.

(** [forward] returns only when every ragged column of the schema comes
    with its values: a missing values column is a [KeyError], not a column
    that is skipped. *)
Theorem forward_needs_values (self : TabularPadding) (inputs : dict Tensor)
    (batch out : Batch) (key : string) (value : Tensor) :
  forward self inputs batch = Ok out →
  (key, value) ∈ features batch →
  endswith key "__offsets" = true →
  str_in (drop_suffix key "__offsets") (tp_features self) = true →
  is_Some (dict_get (drop_suffix key "__offsets" +:+ "__values") (features batch)).
Proof.
  intros Hrun Hin Hkey Hcol.
  destruct (forward_inv _ _ _ _ Hrun) as (L & lens & bp & tp & _ & _ & _ & Hfold & _).
  apply list_elem_of_split in Hin as (l1 & l2 & Hsplit).
  rewrite Hsplit in Hfold at 2. rewrite foldM_result_app in Hfold.
  apply bind_Ok in Hfold as (acc1 & _ & Hfold). cbn [foldM_result] in Hfold.
  apply bind_Ok in Hfold as (acc2 & Hstep & _).
  unfold pad_feature in Hstep. rewrite Hkey, Hcol in Hstep.
  apply bind_Ok in Hstep as (v & Hv & _). unfold dict_item in Hv.
  destruct (dict_get _ _); [by eexists | done].
Qed.

Lemma forward_needs_values_witness :
  is_Some (dict_get ("a" +:+ "__values")
                    [("a__values", T1 [1; 2; 3]); ("a__offsets", T1 [0; 1; 3])]).
Proof.
  apply (forward_needs_values
           (mkTabularPadding [mkColumn "a" [SEQUENCE]] None) []
           (mkBatch [("a__values", T1 [1; 2; 3]); ("a__offsets", T1 [0; 1; 3])] None None)
           (mkBatch [("a", T2 2 [[1; 0]; [2; 3]])] None (Some [("a", T1 [1; 2])]))
           "a__offsets" (T1 [0; 1; 3]));
    [reflexivity | set_solver | reflexivity | reflexivity].
Defined.

(** The same from the other side: when the values of a ragged column of the
    schema are missing, and everything up to that column went through,
    [forward] raises the [KeyError] for the values column. *)
Theorem forward_missing_values (self : TabularPadding) (inputs : dict Tensor)
    (batch : Batch) (key : string) (value : Tensor) (rest : dict Tensor) :
  features batch = (key, value) :: rest →
  endswith key "__offsets" = true →
  str_in (drop_suffix key "__offsets") (tp_features self) = true →
  dict_get (drop_suffix key "__offsets" +:+ "__values") (features batch) = None →
  (∃ L, padding_length self (features batch) = Ok L) →
  (∃ lens, _get_sequence_lengths self (features batch) = Ok lens
           ∧ all_identical (dict_values lens)) →
  forward self inputs batch
  = Raise (KeyError (drop_suffix key "__offsets" +:+ "__values")).
Proof.
  intros Hfeats Hkey Hcol Hmiss [L HL] (lens & Hlens & Hid).
  unfold forward. rewrite HL, Hlens. cbn [mbind result_bind].
  pose proof (check_identical _ Hid) as Hno.
  assert (dict_values lens ≠ []) as Hne.
  { intros Hnil. unfold _get_sequence_lengths in Hlens. rewrite Hfeats in Hlens.
    cbn [foldM_result] in Hlens. rewrite Hkey in Hlens.
    apply bind_Ok in Hlens as (acc & Hstep & Hrest).
    apply bind_Ok in Hstep as (d & _ & [= <-]).
    assert (∀ l (acc : dict Tensor) r, acc ≠ [] →
              foldM_result
                (λ seq_inputs_lengths kv,
                   let '(key, val) := kv in
                   if endswith key "__offsets" then
                     d ← diff_first val;
                     Ok (dict_set (drop_suffix key "__offsets") d seq_inputs_lengths)
                   else if str_in key (sparse_features self) then
                     Ok (dict_set key (ne_sum_last (padding_idx self) val)
                                  seq_inputs_lengths)
                   else Ok seq_inputs_lengths) acc l = Ok r → r ≠ []) as Hgrow.
    { induction l as [|[k v] l IH]; intros acc r Hacc Hl.
      - by injection Hl as <-.
      - cbn [foldM_result] in Hl. apply bind_Ok in Hl as (acc' & Hs & Hl).
        apply (IH acc'); [| done].
        destruct (endswith k "__offsets").
        + apply bind_Ok in Hs as (d' & _ & [= <-]). by destruct acc as [|[]]; simpl;
            [| destruct (String.eqb _ _)].
        + destruct (str_in k _); injection Hs as <-; [| done].
          by destruct acc as [|[]]; simpl; [| destruct (String.eqb _ _)]. }
    apply (Hgrow rest (dict_set (drop_suffix key "__offsets") d []) lens); [done | done |].
    unfold dict_values in Hnil. by apply fmap_nil_inv in Hnil. }
  assert (check_seq_shapes (dict_values lens) = Ok ()) as ->.
  { unfold check_seq_shapes in *.
    rewrite (mapM_result_Ok _ (λ _, true)) in *.
    2,3: (apply Forall_forall; intros x Hx;
          destruct (dict_values lens) as [|t0 ts'] eqn:Hv; [by apply elem_of_nil in Hx |];
          rewrite (Hid x t0 Hx) by left; apply all_eq_refl).
    cbn [mbind result_bind] in *.
    destruct (dict_values lens) as [|t0 ts'] eqn:Hv; [done |].
    unfold all_stack in *. cbn [fmap list_fmap mbind result_bind] in *.
    by destruct (forallb id _). }
  cbn [mbind result_bind].
  assert (∀ feats, feats = features batch →
            foldM_result (pad_feature self feats lens L) [] ((key, value) :: rest)
            = Raise (KeyError (drop_suffix key "__offsets" +:+ "__values"))) as Hround.
  { intros feats ->. cbn [foldM_result].
    replace (pad_feature self (features batch) lens L [] (key, value))
      with (@Raise (dict Tensor) (KeyError (drop_suffix key "__offsets" +:+ "__values")));
      [done |].
    unfold pad_feature. rewrite Hkey, Hcol. unfold dict_item. by rewrite Hmiss. }
  rewrite <- Hfeats in Hround. by rewrite (Hround _ eq_refl).
Qed.

Lemma forward_missing_values_witness :
  forward (mkTabularPadding [mkColumn "a" [SEQUENCE]] None) []
          (mkBatch [("a__offsets", T1 [0; 1; 3])] None None)
  = Raise (KeyError "a__values").
Proof.
  apply (forward_missing_values (mkTabularPadding [mkColumn "a" [SEQUENCE]] None) []
           (mkBatch [("a__offsets", T1 [0; 1; 3])] None None)
           "a__offsets" (T1 [0; 1; 3]) []);
    [reflexivity | reflexivity | reflexivity | reflexivity | by eexists |].
  eexists. split; [reflexivity |].
  by intros x y ->%list_elem_of_singleton ->%list_elem_of_singleton.
Defined.

(** *** Targets *)

Lemma pad_target_other (tgts : dict Tensor) (L : Z) acc kv tp (name : string) :
  pad_target tgts L acc kv = Ok tp →
  stores_under kv.1 ≠ Some name →
  dict_get name tp = dict_get name acc.
Proof.
  destruct kv as [key value]. unfold pad_target, stores_under. cbn [fst].
  destruct (endswith key "__offsets").
  - intros Hrun Hne.
    apply bind_Ok in Hrun as (v & _ & Hrun).
    apply bind_Ok in Hrun as (t & _ & [= <-]).
    apply dict_get_set_ne. congruence.
  - destruct (endswith key "__values"); [by intros [= <-] |].
    intros [= <-] Hne. apply dict_get_set_ne. congruence.
Qed.

Lemma fold_pad_target_other (tgts l : dict Tensor) (L : Z) acc tp (name : string) :
  foldM_result (pad_target tgts L) acc l = Ok tp →
  Forall (λ kv, stores_under kv.1 ≠ Some name) l →
  dict_get name tp = dict_get name acc.
Proof.
  revert acc; induction l as [|kv l IH]; intros acc Hrun Hall.
  - by injection Hrun as <-.
  - apply Forall_cons in Hall as [Hkv Hall]. cbn [foldM_result] in Hrun.
    apply bind_Ok in Hrun as (acc' & Hstep & Hrun).
    rewrite (IH _ Hrun Hall). by eapply pad_target_other.
Qed.

(** A target that is not ragged (its name ends neither in [__offsets] nor in
    [__values], and no offsets column pads to its name) comes out of
    [forward] as it went in: it is not padded, whatever its shape. *)
Theorem forward_keeps_dense_targets (self : TabularPadding) (inputs : dict Tensor)
    (batch out : Batch) (tgts : dict Tensor) (name : string) (value : Tensor) :
  forward self inputs batch = Ok out →
  targets batch = Some tgts →
  NoDup (dict_keys tgts) →
  dict_get name tgts = Some value →
  endswith name "__offsets" = false →
  endswith name "__values" = false →
  dict_get (name +:+ "__offsets") tgts = None →
  ∃ targets_padded,
    targets out = Some targets_padded
    ∧ dict_get name targets_padded = Some value.
Proof.
  intros Hrun Htgts Hnd Hget Hoff Hval Hnone.
  destruct (forward_inv _ _ _ _ Hrun) as (L & lens & bp & tp & _ & _ & _ & _ & Htp & ->).
  rewrite Htgts in Htp. cbn [targets].
  destruct (foldM_result (pad_target tgts L) [] tgts) as [padded|] eqn:Hfold; [| done].
  injection Htp as <-. exists padded. split; [done |].
  apply dict_get_elem_of, list_elem_of_split in Hget as (l1 & l2 & Hsplit).
  rewrite Hsplit in Hfold at 2. rewrite foldM_result_app in Hfold.
  apply bind_Ok in Hfold as (acc1 & _ & Hfold). cbn [foldM_result] in Hfold.
  apply bind_Ok in Hfold as (acc2 & Hstep & Hfold).
  unfold pad_target in Hstep. rewrite Hoff, Hval in Hstep. injection Hstep as <-.
  rewrite (fold_pad_target_other _ _ _ _ _ name Hfold); [apply dict_get_set_eq |].
  apply Forall_forall. intros [key' value'] Hin. cbn [fst].
  assert (key' ∈ dict_keys tgts) as Hkeys.
  { rewrite Hsplit. unfold dict_keys. rewrite fmap_app, fmap_cons.
    apply elem_of_app. right. right. apply list_elem_of_fmap. by exists (key', value'). }
  assert (key' ≠ name) as Hne.
  { intros ->. rewrite Hsplit in Hnd. unfold dict_keys in Hnd.
    rewrite fmap_app, fmap_cons in Hnd.
    apply NoDup_app in Hnd as (_ & _ & Hnd). apply NoDup_cons in Hnd as [Hnotin _].
    apply Hnotin. cbn [fst]. apply list_elem_of_fmap. by exists (name, value'). }
  unfold stores_under.
  destruct (endswith key' "__offsets") eqn:Hoff'.
  - intros [= Heq]. apply dict_get_None in Hnone. apply Hnone.
    by rewrite <- Heq, (endswith_drop_suffix _ _ Hoff').
  - destruct (endswith key' "__values"); [done | congruence].
Qed.

Lemma forward_keeps_dense_targets_witness :
  ∃ targets_padded,
    Some [("t", T2 2 [[1; 0]; [2; 3]]); ("click", T1 [1; 0])] = Some targets_padded
    ∧ dict_get "click" targets_padded = Some (T1 [1; 0]).
Proof.
  apply (forward_keeps_dense_targets
           (mkTabularPadding [mkColumn "a" [SEQUENCE]] None) []
           (mkBatch [("a__values", T1 [1; 2; 3]); ("a__offsets", T1 [0; 1; 3])]
                    (Some [("t__values", T1 [1; 2; 3]); ("t__offsets", T1 [0; 1; 3]);
                           ("click", T1 [1; 0])]) None)
           (mkBatch [("a", T2 2 [[1; 0]; [2; 3]])]
                    (Some [("t", T2 2 [[1; 0]; [2; 3]]); ("click", T1 [1; 0])])
                    (Some [("a", T1 [1; 2])]))
           [("t__values", T1 [1; 2; 3]); ("t__offsets", T1 [0; 1; 3]); ("click", T1 [1; 0])]
           "click" (T1 [1; 0]));
    [reflexivity | reflexivity | apply (bool_decide_unpack _); by vm_compute
    | reflexivity | reflexivity | reflexivity | reflexivity].
Defined.

(** *** The lengths [forward] returns *)

Lemma sequence_lengths_other (self : TabularPadding) (l acc lens : dict Tensor)
    (name : string) :
  foldM_result
    (λ seq_inputs_lengths kv,
       let '(key, val) := kv in
       if endswith key "__offsets" then
         d ← diff_first val;
         Ok (dict_set (drop_suffix key "__offsets") d seq_inputs_lengths)
       else if str_in key (sparse_features self) then
         Ok (dict_set key (ne_sum_last (padding_idx self) val) seq_inputs_lengths)
       else Ok seq_inputs_lengths)
    acc l = Ok lens →
  Forall (λ kv, if endswith kv.1 "__offsets"
                then drop_suffix kv.1 "__offsets" ≠ name
                else kv.1 ≠ name) l →
  dict_get name lens = dict_get name acc.
Proof.
  revert acc; induction l as [|[key val] l IH]; intros acc Hrun Hall.
  - by injection Hrun as <-.
  - apply Forall_cons in Hall as [Hkv Hall]. cbn [fst] in Hkv.
    cbn [foldM_result] in Hrun. apply bind_Ok in Hrun as (acc' & Hstep & Hrun).
    rewrite (IH _ Hrun Hall).
    destruct (endswith key "__offsets").
    + apply bind_Ok in Hstep as (d & _ & [= <-]). apply dict_get_set_ne. congruence.
    + destruct (str_in key (sparse_features self)); injection Hstep as <-; [| done].
      apply dict_get_set_ne. congruence.
Qed.

(** With the padded features, [forward] returns the lengths before padding:
    for a ragged column (not also present as a dense column) they are
    [offsets[i+1] - offsets[i]], also where the padding cut the row. *)
Theorem forward_returns_lengths (self : TabularPadding) (inputs : dict Tensor)
    (batch out : Batch) (key : string) (offs : list Z) :
  forward self inputs batch = Ok out →
  NoDup (dict_keys (features batch)) →
  endswith key "__offsets" = true →
  dict_get key (features batch) = Some (T1 offs) →
  dict_get (drop_suffix key "__offsets") (features batch) = None →
  ∃ lens,
    sequences out = Some lens
    ∧ dict_get (drop_suffix key "__offsets") lens = Some (T1 (diff_list offs)).
Proof.
  intros Hrun Hnd Hkey Hget Hdense.
  destruct (forward_inv _ _ _ _ Hrun) as (L & lens & bp & tp & _ & Hlens & _ & _ & _ & ->).
  exists lens. split; [done |].
  apply dict_get_elem_of, list_elem_of_split in Hget as (l1 & l2 & Hsplit).
  unfold _get_sequence_lengths in Hlens. rewrite Hsplit, foldM_result_app in Hlens.
  apply bind_Ok in Hlens as (acc1 & _ & Hlens). cbn [foldM_result] in Hlens.
  apply bind_Ok in Hlens as (acc2 & Hstep & Hlens).
  rewrite Hkey in Hstep. cbn [diff_first mbind result_bind] in Hstep.
  injection Hstep as <-.
  rewrite (sequence_lengths_other _ _ _ _ _ Hlens); [apply dict_get_set_eq |].
  apply Forall_forall. intros [key' value'] Hin. cbn [fst].
  rewrite Hsplit in Hnd, Hdense.
  unfold dict_keys in Hnd. rewrite fmap_app, fmap_cons in Hnd.
  apply NoDup_app in Hnd as (_ & _ & Hnd). apply NoDup_cons in Hnd as [Hnotin _].
  assert (key' ≠ key) as Hne.
  { intros ->. apply Hnotin. cbn [fst]. apply list_elem_of_fmap. by exists (key, value'). }
  destruct (endswith key' "__offsets") eqn:Hoff'.
  - intros Heq. apply Hne. by apply (drop_suffix_inj _ _ "__offsets").
  - intros ->. apply dict_get_None in Hdense. apply Hdense.
    unfold dict_keys. rewrite fmap_app, fmap_cons. apply elem_of_app. right. right.
    apply list_elem_of_fmap. by exists (drop_suffix key "__offsets", value').
Qed.

Lemma forward_returns_lengths_witness :
  ∃ lens,
    Some [("a", T1 [1; 3])] = Some lens
    ∧ dict_get "a" lens = Some (T1 [1; 3]).
Proof.
  apply (forward_returns_lengths
           (mkTabularPadding [mkColumn "a" [SEQUENCE]] (Some 2)) []
           (mkBatch [("a__values", T1 [1; 2; 3; 4]); ("a__offsets", T1 [0; 1; 4])] None None)
           (mkBatch [("a", T2 2 [[1; 0]; [2; 3]])] None (Some [("a", T1 [1; 3])]))
           "a__offsets" [0; 1; 4]);
    [reflexivity | apply (bool_decide_unpack _); by vm_compute
    | reflexivity | reflexivity | reflexivity].
Defined.

(** *** Without a configured length nothing is cut *)

Lemma observed_row_lengths_elem (feats : dict Tensor) (key : string) (offs : list Z)
    (d : Z) :
  (key, T1 offs) ∈ feats → endswith key "__offsets" = true →
  d ∈ diff_list offs → d ∈ observed_row_lengths feats.
Proof.
  intros Hin Hkey Hd. unfold observed_row_lengths.
  apply list_elem_of_bind. exists (key, T1 offs). split; [| done].
  cbn [fst snd]. by rewrite Hkey.
Qed.

Lemma max_listZ_elem (x d : Z) (xs : list Z) : d ∈ xs → d ≤ max_listZ x xs.
Proof.
  intros Hin. pose proof (max_listZ_ge x xs) as [_ Hall].
  rewrite Forall_forall in Hall. by apply Hall.
Qed.

Lemma forward_ragged_value (self : TabularPadding) (inputs : dict Tensor)
    (batch out : Batch) (key : string) (offs vals : list Z) :
  forward self inputs batch = Ok out →
  NoDup (dict_keys (features batch)) →
  endswith key "__offsets" = true →
  dict_get key (features batch) = Some (T1 offs) →
  dict_get (drop_suffix key "__offsets" +:+ "__values") (features batch)
  = Some (T1 vals) →
  ragged_wf vals offs = true →
  str_in (drop_suffix key "__offsets") (tp_features self) = true →
  dict_get (drop_suffix key "__offsets") (features batch) = None →
  ∃ L : Z,
    padding_length self (features batch) = Ok L
    ∧ 0 ≤ L
    ∧ dict_get (drop_suffix key "__offsets") (features out)
      = Some (T2 (Z.to_nat L) (resize (Z.to_nat L) 0 <$> ragged_rows vals offs)).
Proof.
  intros Hrun Hnd Hkey Hoffs Hvals Hwf Hcol Hdense.
  destruct (forward_Ok _ _ _ _ Hrun) as (L & lens & HL & _ & Hfold).
  destruct (ragged_wf_rows vals offs Hwf) as (Hne & Hv & Ho).
  apply dict_get_elem_of, list_elem_of_split in Hoffs as (l1 & l2 & Hsplit).
  pose proof (later_rounds_store_elsewhere _ _ _ _ _ Hsplit Hnd Hkey Hdense) as Hlater.
  rewrite Hsplit in Hfold at 2. rewrite foldM_result_app in Hfold.
  apply bind_Ok in Hfold as (acc1 & _ & Hfold). cbn [foldM_result] in Hfold.
  apply bind_Ok in Hfold as (acc2 & Hstep & Hfold).
  unfold pad_feature in Hstep. rewrite Hkey, Hcol in Hstep.
  unfold dict_item in Hstep. rewrite Hvals in Hstep. cbn [mbind result_bind] in Hstep.
  apply bind_Ok in Hstep as (t & Hpad & [= <-]).
  assert (0 ≤ L) as HL0.
  { by eapply (pad_ragged_Ok_nonneg (ragged_rows vals offs) (T1 vals) (T1 offs));
      simpl; rewrite ?Hv, ?Ho. }
  rewrite (pad_ragged_rows (ragged_rows vals offs)) in Hpad;
    [| done | by simpl; rewrite Hv | by simpl; rewrite Ho | done].
  injection Hpad as <-.
  exists L. split; [done |]. split; [done |].
  rewrite (fold_pad_feature_other _ _ _ _ _ _ _ _ Hfold Hlater).
  apply dict_get_set_eq.
Qed.

(** When no [max_sequence_length] is configured (or it is 0), [forward] cuts
    no ragged feature: the padded tensor of a ragged column of the schema
    holds every value of the column, [values[offsets[i] + j]] at [(i, j)]. *)
Theorem forward_unconfigured_keeps_values (self : TabularPadding)
    (inputs : dict Tensor) (batch out : Batch) (key : string) (offs vals : list Z) :
  max_sequence_length self = None ∨ max_sequence_length self = Some 0 →
  forward self inputs batch = Ok out →
  NoDup (dict_keys (features batch)) →
  endswith key "__offsets" = true →
  dict_get key (features batch) = Some (T1 offs) →
  dict_get (drop_suffix key "__offsets" +:+ "__values") (features batch)
  = Some (T1 vals) →
  ragged_wf vals offs = true →
  str_in (drop_suffix key "__offsets") (tp_features self) = true →
  dict_get (drop_suffix key "__offsets") (features batch) = None →
  ∃ (ncols : nat) rows,
    dict_get (drop_suffix key "__offsets") (features out) = Some (T2 ncols rows)
    ∧ ∀ (i : nat) (oi oi' : Z),
        offs !! i = Some oi → offs !! S i = Some oi' →
        ∃ row, rows !! i = Some row
          ∧ ∀ j : nat, Z.of_nat j < oi' - oi →
              ∃ v, vals !! (Z.to_nat oi + j)%nat = Some v ∧ row !! j = Some v.
Proof.
  intros Hcfg Hrun Hnd Hkey Hoffs Hvals Hwf Hcol Hdense.
  destruct (forward_ragged_value _ _ _ _ _ _ _ Hrun Hnd Hkey Hoffs Hvals Hwf Hcol Hdense)
    as (L & HL & HL0 & Hget).
  apply padding_length_spec in HL.
  assert (L = max_listZ 0 (observed_row_lengths (features batch))) as HLmax.
  { by destruct Hcfg as [Hc|Hc]; rewrite Hc in HL. }
  destruct (ragged_wf_rows vals offs Hwf) as (Hne & Hv & Ho).
  set (rs := ragged_rows vals offs) in *.
  eexists _, _. split; [exact Hget |].
  intros i oi oi' Hi HSi. rewrite <- Ho in Hi, HSi. unfold ragged_offsets in Hi, HSi.
  destruct (lookup_offsets_rows _ _ _ _ _ Hi HSi) as (r & Hr & ->).
  destruct (offsets_from_lookup _ _ _ _ _ Hi Hr) as (Hle & _ & Hval).
  assert (Z.of_nat (length r) ≤ L) as HrL.
  { rewrite HLmax. apply max_listZ_elem.
    apply (observed_row_lengths_elem _ key offs); [by apply dict_get_elem_of | done |].
    rewrite <- Ho. unfold ragged_offsets. rewrite diff_offsets_from.
    apply list_elem_of_fmap. exists r. split; [done |].
    by eapply list_elem_of_lookup_2. }
  exists (resize (Z.to_nat L) 0 r). split; [by rewrite list_lookup_fmap, Hr |].
  intros j Hj. assert (j < length r)%nat as Hj' by lia.
  destruct (lookup_lt_is_Some_2 r j Hj') as [v Hv'].
  exists v. split.
  - rewrite <- Hv. unfold ragged_values. rewrite <- Hv', <- (Hval j Hj'). f_equal. lia.
  - rewrite lookup_resize by lia. done.
Qed.

Lemma forward_unconfigured_keeps_values_witness :
  ∃ (ncols : nat) rows,
    dict_get "a" [("a", T2 3 [[1; 0; 0]; [2; 3; 4]])] = Some (T2 ncols rows)
    ∧ rows = [[1; 0; 0]; [2; 3; 4]].
Proof.
  destruct (forward_unconfigured_keeps_values
              (mkTabularPadding [mkColumn "a" [SEQUENCE]] None) []
              (mkBatch [("a__values", T1 [1; 2; 3; 4]); ("a__offsets", T1 [0; 1; 4])]
                       None None)
              (mkBatch [("a", T2 3 [[1; 0; 0]; [2; 3; 4]])] None (Some [("a", T1 [1; 3])]))
              "a__offsets" [0; 1; 4] [1; 2; 3; 4])
    as (ncols & rows & Hget & _);
    [by left | reflexivity | apply (bool_decide_unpack _); by vm_compute
    | reflexivity | reflexivity | reflexivity | reflexivity | reflexivity | reflexivity |].
  exists ncols, rows. split; [exact Hget |].
  vm_compute in Hget. by injection Hget as <- <-.
Defined.

(** *** Only sequence columns are returned *)

Lemma dict_set_keeps {V} (k k' : string) (v : V) (d : dict V) :
  is_Some (dict_get k d) → is_Some (dict_get k (dict_set k' v d)).
Proof.
  intros Hk. destruct (decide (k = k')) as [->|Hne].
  - rewrite dict_get_set_eq. by eexists.
  - by rewrite dict_get_set_ne.
Qed.

Lemma sequence_lengths_keep (self : TabularPadding) (l acc lens : dict Tensor)
    (name : string) :
  foldM_result
    (λ seq_inputs_lengths kv,
       let '(key, val) := kv in
       if endswith key "__offsets" then
         d ← diff_first val;
         Ok (dict_set (drop_suffix key "__offsets") d seq_inputs_lengths)
       else if str_in key (sparse_features self) then
         Ok (dict_set key (ne_sum_last (padding_idx self) val) seq_inputs_lengths)
       else Ok seq_inputs_lengths)
    acc l = Ok lens →
  is_Some (dict_get name acc)
  ∨ (∃ key val, (key, val) ∈ l ∧ endswith key "__offsets" = true
                ∧ name = drop_suffix key "__offsets") →
  is_Some (dict_get name lens).
Proof.
  revert acc; induction l as [|[key val] l IH]; intros acc Hrun Hcase.
  - injection Hrun as <-. destruct Hcase as [?|(k & v & Hin & _)]; [done |].
    by apply elem_of_nil in Hin.
  - cbn [foldM_result] in Hrun. apply bind_Ok in Hrun as (acc' & Hstep & Hrun).
    apply (IH _ Hrun).
    destruct Hcase as [Hacc|(k & v & Hin & Hk & ->)].
    + left. destruct (endswith key "__offsets").
      * apply bind_Ok in Hstep as (d & _ & [= <-]). by apply dict_set_keeps.
      * destruct (str_in key _); injection Hstep as <-; [by apply dict_set_keeps | done].
    + apply elem_of_cons in Hin as [[= -> ->]|Hin].
      * left. rewrite Hk in Hstep. apply bind_Ok in Hstep as (d & _ & [= <-]).
        rewrite dict_get_set_eq. by eexists.
      * right. by exists k, v.
Qed.

(** [forward] returns sequence columns only: every feature it returns has
    its lengths among the lengths it returns.  A column of the schema that
    is neither ragged nor tagged as a sequence is not in the padded
    batch. *)
Theorem forward_returns_sequences_only (self : TabularPadding) (inputs : dict Tensor)
    (batch out : Batch) (name : string) :
  forward self inputs batch = Ok out →
  name ∈ dict_keys (features out) →
  ∃ lens, sequences out = Some lens ∧ is_Some (dict_get name lens).
Proof.
  intros Hrun Hname.
  destruct (forward_inv _ _ _ _ Hrun) as (L & lens & bp & tp & _ & Hlens & _ & Hfold & _ & ->).
  exists lens. split; [done |]. cbn [features] in Hname. clear Hrun.
  assert (∀ l acc,
            (∀ kv, kv ∈ l → kv ∈ features batch) →
            (∀ k, k ∈ dict_keys acc → is_Some (dict_get k lens)) →
            foldM_result (pad_feature self (features batch) lens L) acc l = Ok bp →
            is_Some (dict_get name lens)) as Hgen.
  { induction l as [|[key value] l IH]; intros acc Hsub Hacc Hl.
    - injection Hl as <-. by apply Hacc.
    - cbn [foldM_result] in Hl. apply bind_Ok in Hl as (acc' & Hstep & Hl).
      apply (IH acc'); [intros kv ?; apply Hsub; by right | | done].
      unfold pad_feature in Hstep.
      destruct (endswith key "__offsets") eqn:Hkey.
      + destruct (str_in (drop_suffix key "__offsets") (tp_features self));
          [| by injection Hstep as <-].
        apply bind_Ok in Hstep as (v & _ & Hstep).
        apply bind_Ok in Hstep as (t & _ & [= <-]).
        intros k [->|Hk]%dict_keys_set; [| by apply Hacc].
        apply (sequence_lengths_keep self (features batch) [] lens); [done |].
        right. exists key, value. split; [apply Hsub; left | done].
      + destruct (endswith key "__values"); [by injection Hstep as <- |].
        destruct (str_in key (tp_features self)); cbn [andb] in Hstep;
          [| by injection Hstep as <-].
        destruct (bool_decide_reflect (is_Some (dict_get key lens))) as [Hsome|_];
          [| by injection Hstep as <-].
        apply bind_Ok in Hstep as (t & _ & [= <-]).
        intros k [->|Hk]%dict_keys_set; [done | by apply Hacc]. }
  apply (Hgen _ [] ltac:(done) ltac:(by intros k ?%elem_of_nil) Hfold).
Qed.

Lemma forward_returns_sequences_only_witness :
  ∃ lens, Some [("a", T1 [1; 2])] = Some lens ∧ is_Some (dict_get "a" lens).
Proof.
  apply (forward_returns_sequences_only
           (mkTabularPadding [mkColumn "a" [SEQUENCE]; mkColumn "u" [CONTINUOUS]] None) []
           (mkBatch [("a__values", T1 [1; 2; 3]); ("a__offsets", T1 [0; 1; 3]);
                     ("u", T1 [9; 9])] None None)
           (mkBatch [("a", T2 2 [[1; 0]; [2; 3]])] None (Some [("a", T1 [1; 2])]))
           "a"); [reflexivity |].
  vm_compute. set_solver.
Defined.

End TorchExtra.

Module SamplingExtra.
Import Sampling SamplingFacts.

(** ** [_list_to_tensor] *)

(** [_list_to_tensor] returns the rows of the tensors of a non-empty list,
    in order: the shortcut for a list of one tensor agrees with the
    concatenation.  The empty list raises. *)
Theorem list_to_tensor_concat {Row : Type} (input_list : list (TFTensor Row)) :
  (input_list ≠ [] → _list_to_tensor input_list = Ok (concat input_list))
  ∧ (input_list = [] → ∃ e, _list_to_tensor input_list = Raise e).
Proof.
  split.
  - intros Hne. unfold _list_to_tensor.
    destruct input_list as [|t [|t' l]]; [done | | done].
    simpl. by rewrite app_nil_r.
  - intros ->. by eexists.
Qed.

(** ** [AddRandomNegativesToBatch.call] *)

Section negatives.
Context {Row Gen : Type}.
Variable uniform : Gen → option Z → nat → Z → list Z * Gen.
Variable from_features : Schema → dict (TFTensor Row) → result (@ItemCollection Row).
Implicit Types (val : TFTensor Row) (ids : list Z)
  (self : AddRandomNegativesToBatch) (inputs : dict (TFTensor Row)).

(** What [call] returns for an aligned batch. *)
Lemma negatives_call_outputs self (g : Gen) inputs (batch_size : nat)
    (items : @ItemCollection Row) :
  uniform_contract uniform →
  from_features (item_schema self) inputs = Ok items →
  inputs ≠ [] →
  NoDup (dict_keys inputs) →
  Forall (λ kv, first_dim kv.2 = batch_size) inputs →
  ∃ g' ids,
    negatives_call uniform from_features self g inputs
    = Ok ((λ kv, (kv.1, output_of self ids kv.1 kv.2)) <$> inputs, g')
    ∧ length ids = (n_per_positive self * batch_size)%nat
    ∧ Forall (λ i, 0 ≤ i < Z.of_nat batch_size) ids.
Proof.
  intros Hu Hitems Hne Hnd Hall. unfold negatives_call.
  destruct inputs as [|[name0 val0] inputs'] eqn:Hin; [done |].
  cbn [dict_values fmap list_fmap snd mbind result_bind]. rewrite <- Hin in *.
  assert (first_dim val0 = batch_size) as Hbs.
  { rewrite Hin in Hall. by apply Forall_cons in Hall as [? _]. }
  rewrite Hbs, Hitems. cbn [mbind result_bind].
  destruct (sample_ids_spec uniform self g batch_size items Hu)
    as (ids & g' & -> & Hlen & Hrange).
  cbn [mbind result_bind].
  rewrite (fold_add_negatives self ids batch_size inputs []) by done.
  cbn [mbind result_bind app]. exists g', ids.
  split; [by rewrite Hin | done].
Qed.

Lemma elem_of_tf_repeat val (n : nat) (row : Row) :
  row ∈ tf_repeat val n → row ∈ val.
Proof.
  unfold tf_repeat. intros (r & Hrow & Hr)%list_elem_of_bind.
  by apply elem_of_replicate in Hrow as [-> _].
Qed.

Lemma elem_of_gathered val ids (row : Row) : row ∈ gathered val ids → row ∈ val.
Proof.
  unfold gathered. intros (i & _ & Hi)%list_elem_of_omap.
  by eapply list_elem_of_lookup_2.
Qed.

Lemma lookup_tf_repeat val (n j : nat) :
  (0 < n)%nat → tf_repeat val n !! j = val !! (j / n)%nat.
Proof.
  intros Hn. unfold tf_repeat. revert j; induction val as [|row val IH]; intros j.
  - done.
  - rewrite bind_cons. destruct (decide (j < n)%nat) as [Hlt|Hge].
    + rewrite lookup_app_l by (by rewrite length_replicate).
      rewrite Nat.div_small by done. simpl. by apply lookup_replicate_2.
    + rewrite lookup_app_r by (rewrite length_replicate; lia).
      rewrite length_replicate, IH.
      replace (j / n)%nat with (S ((j - n) / n)); [done |].
      replace j with ((j - n) + 1 * n)%nat at 2 by lia.
      rewrite Nat.div_add by lia. lia.
Qed.

Lemma tf_repeat_once val : tf_repeat val 1 = val.
Proof.
  unfold tf_repeat. induction val as [|row val IH]; [done |].
  rewrite bind_cons, IH. done.
Qed.

End negatives.

(** Every row [call] returns is a row of the same column of the batch: the
    negatives of an item column are rows of that column, and the other
    columns only repeat their rows. *)
Theorem negatives_are_rows_of_the_batch {Row Gen : Type}
    (uniform : Gen → option Z → nat → Z → list Z * Gen)
    (from_features : Schema → dict (TFTensor Row) → result (@ItemCollection Row))
    (self : AddRandomNegativesToBatch) (g : Gen)
    (inputs : dict (TFTensor Row)) (batch_size : nat) (items : @ItemCollection Row) :
  uniform_contract uniform →
  from_features (item_schema self) inputs = Ok items →
  inputs ≠ [] →
  NoDup (dict_keys inputs) →
  Forall (λ kv, first_dim kv.2 = batch_size) inputs →
  ∃ outputs g',
    negatives_call uniform from_features self g inputs = Ok (outputs, g')
    ∧ ∀ name out row,
        dict_get name outputs = Some out → row ∈ out →
        ∃ val, dict_get name inputs = Some val ∧ row ∈ val.
Proof.
  intros Hu Hitems Hne Hnd Hall.
  destruct (negatives_call_outputs uniform from_features self g inputs batch_size items
              Hu Hitems Hne Hnd Hall) as (g' & ids & Hrun & _ & _).
  eexists _, g'. split; [exact Hrun |].
  intros name out row Hout Hrow.
  rewrite (dict_get_fmap (output_of self ids)) in Hout.
  destruct (dict_get name inputs) as [val|]; [| done].
  injection Hout as <-. exists val. split; [done |].
  unfold output_of in Hrow. destruct (str_in name _).
  - apply elem_of_app in Hrow as [?|Hrow]; [done | by eapply elem_of_gathered].
  - by eapply elem_of_tf_repeat.
Qed.

Lemma negatives_are_rows_of_the_batch_witness :
  ∃ outputs g',
    negatives_call counter_uniform select_items
      (new_AddRandomNegativesToBatch
         [mkColumn "item_id" [ITEM; ITEM_ID]; mkColumn "user_id" [USER]] 1 None)
      0 [("user_id", [7; 8]); ("item_id", [20; 21])] = Ok (outputs, g')
    ∧ outputs = [("user_id", [7; 7; 8; 8]); ("item_id", [20; 21; 20; 21])].
Proof.
  destruct (negatives_are_rows_of_the_batch counter_uniform select_items
              (new_AddRandomNegativesToBatch
                 [mkColumn "item_id" [ITEM; ITEM_ID]; mkColumn "user_id" [USER]] 1 None)
              0 [("user_id", [7; 8]); ("item_id", [20; 21])] 2
              (mkItemCollection [20; 21] []) counter_uniform_contract)
    as (outputs & g' & Hrun & _);
    [reflexivity | done | apply (bool_decide_unpack _); by vm_compute
    | repeat constructor |].
  exists outputs, g'. split; [exact Hrun |].
  vm_compute in Hrun. by injection Hrun as <- _.
Defined.

(** Where the rows go: row [j] of a column that is not an item column is
    row [j / (n_per_positive + 1)] of the batch, while row [j] of an item
    column is, for [j] below the batch size, row [j] of the batch. *)
Theorem negatives_call_row_order {Row Gen : Type}
    (uniform : Gen → option Z → nat → Z → list Z * Gen)
    (from_features : Schema → dict (TFTensor Row) → result (@ItemCollection Row))
    (self : AddRandomNegativesToBatch) (g : Gen)
    (inputs : dict (TFTensor Row)) (batch_size : nat) (items : @ItemCollection Row) :
  uniform_contract uniform →
  from_features (item_schema self) inputs = Ok items →
  inputs ≠ [] →
  NoDup (dict_keys inputs) →
  Forall (λ kv, first_dim kv.2 = batch_size) inputs →
  ∃ outputs g',
    negatives_call uniform from_features self g inputs = Ok (outputs, g')
    ∧ ∀ name val, dict_get name inputs = Some val →
        ∃ out, dict_get name outputs = Some out
          ∧ ∀ j : nat,
              if str_in name (column_names (item_schema self))
              then (j < batch_size)%nat → out !! j = val !! j
              else out !! j = val !! (j / (n_per_positive self + 1))%nat.
Proof.
  intros Hu Hitems Hne Hnd Hall.
  destruct (negatives_call_outputs uniform from_features self g inputs batch_size items
              Hu Hitems Hne Hnd Hall) as (g' & ids & Hrun & _ & _).
  eexists _, g'. split; [exact Hrun |].
  intros name val Hget. eexists. split.
  { by rewrite (dict_get_fmap (output_of self ids)), Hget. }
  assert (first_dim val = batch_size) as Hval.
  { apply dict_get_elem_of in Hget. rewrite Forall_forall in Hall.
    by apply (Hall (name, val)). }
  intros j. unfold output_of. destruct (str_in name _).
  - intros Hj. apply lookup_app_l. unfold first_dim in Hval. lia.
  - apply lookup_tf_repeat. lia.
Qed.

Lemma negatives_call_row_order_witness :
  ∃ outputs g',
    negatives_call counter_uniform select_items
      (new_AddRandomNegativesToBatch
         [mkColumn "item_id" [ITEM; ITEM_ID]; mkColumn "user_id" [USER]] 1 None)
      0 [("user_id", [7; 8]); ("item_id", [20; 21])] = Ok (outputs, g')
    ∧ dict_get "user_id" outputs ≫= (.!! 1%nat) = Some 7
    ∧ dict_get "item_id" outputs ≫= (.!! 1%nat) = Some 21.
Proof.
  destruct (negatives_call_row_order counter_uniform select_items
              (new_AddRandomNegativesToBatch
                 [mkColumn "item_id" [ITEM; ITEM_ID]; mkColumn "user_id" [USER]] 1 None)
              0 [("user_id", [7; 8]); ("item_id", [20; 21])] 2
              (mkItemCollection [20; 21] []) counter_uniform_contract)
    as (outputs & g' & Hrun & _);
    [reflexivity | done | apply (bool_decide_unpack _); by vm_compute
    | repeat constructor |].
  exists outputs, g'. split; [exact Hrun |].
  vm_compute in Hrun. by injection Hrun as <- _.
Defined.

(** With no negatives per positive, [call] returns the batch as it is; the
    tensors need not even have the same number of rows. *)
Theorem negatives_call_zero {Row Gen : Type}
    (uniform : Gen → option Z → nat → Z → list Z * Gen)
    (from_features : Schema → dict (TFTensor Row) → result (@ItemCollection Row))
    (self : AddRandomNegativesToBatch) (g : Gen)
    (inputs : dict (TFTensor Row)) (items : @ItemCollection Row) :
  uniform_contract uniform →
  from_features (item_schema self) inputs = Ok items →
  n_per_positive self = 0%nat →
  inputs ≠ [] →
  NoDup (dict_keys inputs) →
  ∃ g', negatives_call uniform from_features self g inputs = Ok (inputs, g').
Proof.
  intros Hu Hitems Hn Hne Hnd. unfold negatives_call.
  destruct inputs as [|[name0 val0] inputs'] eqn:Hin; [done |].
  cbn [dict_values fmap list_fmap snd mbind result_bind]. rewrite <- Hin in *.
  rewrite Hitems. cbn [mbind result_bind].
  unfold sample_ids, random_uniform. rewrite Hn. cbn [Nat.mul Nat.ltb Nat.leb andb].
  destruct (Hu g (seed self) 0%nat (Z.of_nat (first_dim val0))) as [Hlen _].
  destruct (uniform g (seed self) 0%nat _) as [ids g'] eqn:Hdraw.
  simpl in Hlen. apply nil_length_inv in Hlen as ->. cbn [mbind result_bind].
  exists g'.
  assert (∀ (l acc : dict (TFTensor Row)), NoDup (dict_keys acc ++ dict_keys l) →
            foldM_result (add_negatives self []) acc l = Ok (acc ++ l)) as Hfold.
  { induction l as [|[name val] l IH]; intros acc Hd.
    - simpl. by rewrite app_nil_r.
    - assert (name ∉ dict_keys acc) as Hfresh.
      { unfold dict_keys in *. simpl in Hd. apply NoDup_app in Hd as (_ & Hd & _).
        intros Hin'. apply (Hd name Hin'). left. }
      cbn [foldM_result add_negatives]. rewrite Hn.
      assert (NoDup (dict_keys (acc ++ [(name, val)]) ++ dict_keys l)) as Hd'.
      { unfold dict_keys in *. rewrite fmap_app. simpl.
        by rewrite <- (assoc_L (++)). }
      destruct (str_in name _); cbn [gather mapM_result mbind result_bind].
      + rewrite app_nil_r, dict_set_fresh by done. rewrite IH by done.
        by rewrite <- (assoc_L (++)).
      + change (0 + 1)%nat with 1%nat. rewrite tf_repeat_once, dict_set_fresh by done.
        rewrite IH by done. by rewrite <- (assoc_L (++)). }
  by rewrite (Hfold inputs []).
Qed.

Lemma negatives_call_zero_witness :
  ∃ g',
    negatives_call counter_uniform select_items
      (new_AddRandomNegativesToBatch [mkColumn "item_id" [ITEM; ITEM_ID]] 0 None)
      0 [("user_id", [7; 8; 9]); ("item_id", [20; 21])]
    = Ok ([("user_id", [7; 8; 9]); ("item_id", [20; 21])], g').
Proof.
  apply (negatives_call_zero counter_uniform select_items
           (new_AddRandomNegativesToBatch [mkColumn "item_id" [ITEM; ITEM_ID]] 0 None)
           0 [("user_id", [7; 8; 9]); ("item_id", [20; 21])]
           (mkItemCollection [20; 21] []) counter_uniform_contract);
    [reflexivity | reflexivity | done | apply (bool_decide_unpack _); by vm_compute].
Defined.

End SamplingExtra.

Module TransformerExtra.
Import Transformer TransformerBuild TransformerFacts.

(** ** [get_tf_main_layer] and [TransformerBlock.__init__] *)

(** [get_tf_main_layer] returns the first attribute of the model that is a
    layer, in the order of the attributes, and raises [IndexError] exactly
    when no attribute is a layer. *)
Theorem get_tf_main_layer_first {V K : Type} (hf_model : dict (@Attr V K)) :
  (∀ layer, get_tf_main_layer hf_model = Ok layer ↔
     ∃ before name after,
       hf_model = before ++ (name, AttrLayer layer) :: after
       ∧ Forall (λ kv, kv.2 = AttrOther) before)
  ∧ (get_tf_main_layer hf_model = Raise IndexError ↔
       Forall (λ kv, kv.2 = AttrOther) hf_model).
Proof.
  unfold get_tf_main_layer.
  induction hf_model as [|[name [l|]] hf_model [IHok IHerr]].
  - split; [intros layer; split; [done |] | done].
    intros (before & name & after & Heq & _). by destruct before.
  - cbn [omap list_omap attr_layer snd]. split.
    + intros layer. split.
      * intros [= ->]. by exists [], name, hf_model.
      * intros ([|[name' a'] before] & name'' & after & Heq & Hbefore).
        -- by injection Heq as _ -> _.
        -- apply Forall_cons in Hbefore as [Ha' _]. simpl in Ha'. subst a'.
           by injection Heq.
    + split; [done |]. intros Hall. apply Forall_cons in Hall as [Hl _]. done.
  - cbn [omap list_omap attr_layer snd]. split.
    + intros layer. rewrite IHok. split.
      * intros (before & name' & after & -> & Hbefore).
        exists ((name, AttrOther) :: before), name', after.
        split; [done | by constructor].
      * intros ([|[name' a'] before] & name'' & after & Heq & Hbefore); [done |].
        injection Heq as _ _ ->. apply Forall_cons in Hbefore as [_ Hbefore].
        by exists before, name'', after.
    + rewrite IHerr. split; [by constructor |].
      intros Hall. by apply Forall_cons in Hall as [_ ?].
Qed.



(** A block built with the name of a member of [HFOutput] as [post] and no
    [pre] calls the transformer layer on the wrapped inputs and returns the
    attribute the member selects from its output; for the member
    [hidden_state] this is the attribute [hidden_states]. *)
Theorem post_name_selects {T R V K Config : Type} (to_tensor : R → T)
    (inputs_embeds : T → V) (getattr : V → string → result V) (tuple : V → V → V)
    (model_of_config : Config → result (dict (@Attr V K)))
    (layer : @Layer V K) (name : string) (member : HFOutput) :
  dict_get name HFOutput_members = Some member →
  ∃ block,
    new_TransformerBlock getattr tuple model_of_config (OfLayer layer) (PostName name)
      PreNone = Ok block
    ∧ ∀ (inputs : @Inputs T R) (kwargs : K),
        call to_tensor inputs_embeds block inputs kwargs
        = (out ← layer kwargs (inputs_embeds (match inputs with
                                               | Ragged r => to_tensor r
                                               | Dense t => t
                                               end));
           match member with
           | last_hidden_state => getattr out "last_hidden_state"
           | pooler_output => getattr out "pooler_output"
           | hidden_state => getattr out "hidden_states"
           | attentions => getattr out "attentions"
           | last_state_and_attention =>
               a ← getattr out "last_hidden_state";
               b ← getattr out "attentions";
               Ok (tuple a b)
           end).
Proof.
  intros Hget. unfold new_TransformerBlock. cbn [mbind result_bind].
  unfold dict_item. rewrite Hget. cbn [mbind result_bind].
  eexists. split; [done |]. intros inputs kwargs.
  unfold call, to_call, call_sequentially. cbn [pre post transformer app foldM_result].
  destruct (layer kwargs _) as [out|e]; cbn [mbind result_bind]; [| done].
  unfold HFOutput_value, SelectHFOutput.
  destruct member; cbn [foldM_result]; apply bind_Ok_r.
Qed.

Lemma post_name_selects_witness :
  ∃ block,
    new_TransformerBlock (V := Z) (K := unit) (Config := unit)
      (λ x name, if String.eqb name "hidden_states" then Ok (x + 1) else Ok x)
      Z.add (λ _, Ok []) (OfLayer (λ _ x, Ok (2 * x))) (PostName "hidden_state") PreNone
    = Ok block
    ∧ call (T := Z) (R := Z) (λ r, r) (λ t, t) block (Dense 5) () = Ok 11.
Proof.
  destruct (post_name_selects (T := Z) (R := Z) (V := Z) (K := unit) (Config := unit)
              (λ r, r) (λ t, t)
              (λ x name, if String.eqb name "hidden_states" then Ok (x + 1) else Ok x)
              Z.add (λ _, Ok []) (λ _ x, Ok (2 * x)) "hidden_state" hidden_state)
    as (block & Hnew & Hcall); [reflexivity |].
  exists block. split; [exact Hnew |]. rewrite Hcall. reflexivity.
Defined.

(** An instance of a layer given as [pre] makes the construction raise
    [TypeError], whenever the transformer and [post] are accepted: [pre] is
    handed to [issubclass], which takes classes only. *)
Theorem pre_instance_rejected {V K Config : Type} (getattr : V → string → result V)
    (tuple : V → V → V) (model_of_config : Config → result (dict (@Attr V K)))
    (transformer : @TransformerBody V K Config) (post : @PostArg V K)
    (prepare : @Layer V K) (block : @TransformerBlock V K) :
  new_TransformerBlock getattr tuple model_of_config transformer post PreNone = Ok block →
  new_TransformerBlock getattr tuple model_of_config transformer post
    (PreInstance prepare) = Raise TypeError.
Proof.
  unfold new_TransformerBlock. intros Hnew.
  destruct (match transformer with OfConfig _ => _ | _ => _ end) as [t|e];
    cbn [mbind result_bind] in *; [| done].
  destruct (match post with PostName _ => _ | _ => _ end) as [p|e];
    cbn [mbind result_bind] in *; done.
Qed.

Lemma pre_instance_rejected_witness :
  new_TransformerBlock (V := Z) (K := unit) (Config := unit)
    (λ x _, Ok x) Z.add (λ _, Ok [])
    (OfModel [("config", AttrOther); ("bert", AttrLayer (λ _ x, Ok (2 * x)))])
    (PostName "last_hidden_state") (PreInstance (λ _ x, Ok x))
  = Raise TypeError.
Proof.
  eapply (pre_instance_rejected (V := Z) (K := unit) (Config := unit)).
  reflexivity.
Defined.

(** With the class [TransformerPrepare] itself as [pre], the construction
    succeeds when the transformer and [post] are accepted, and every call of
    the block raises [NotImplementedError]. *)
Theorem prepare_base_class_cannot_be_called {T R V K Config : Type} (to_tensor : R → T)
    (inputs_embeds : T → V) (getattr : V → string → result V) (tuple : V → V → V)
    (model_of_config : Config → result (dict (@Attr V K)))
    (transformer : @TransformerBody V K Config) (post : @PostArg V K)
    (block0 : @TransformerBlock V K) :
  new_TransformerBlock getattr tuple model_of_config transformer post PreNone = Ok block0 →
  ∃ block,
    new_TransformerBlock getattr tuple model_of_config transformer post
      (PrepareClass (λ _, Ok TransformerPrepare_call)) = Ok block
    ∧ Transformer.transformer block = Transformer.transformer block0
    ∧ Transformer.post block = Transformer.post block0
    ∧ ∀ (inputs : @Inputs T R) (kwargs : K),
        call to_tensor inputs_embeds block inputs kwargs = Raise NotImplementedError.
Proof.
  unfold new_TransformerBlock. intros Hnew.
  destruct (match transformer with OfConfig _ => _ | _ => _ end) as [t|e];
    cbn [mbind result_bind] in *; [| done].
  destruct (match post with PostName _ => _ | _ => _ end) as [p|e];
    cbn [mbind result_bind] in *; [| done].
  injection Hnew as <-. eexists. split; [done |]. split; [done |]. split; [done |].
  intros inputs kwargs. unfold call, to_call, call_sequentially.
  cbn [Transformer.pre app foldM_result TransformerPrepare_call mbind result_bind]. done.
Qed.

Lemma prepare_base_class_cannot_be_called_witness :
  ∃ block,
    new_TransformerBlock (V := Z) (K := unit) (Config := unit)
      (λ x _, Ok x) Z.add (λ _, Ok []) (OfLayer (λ _ x, Ok (2 * x))) PostNone
      (PrepareClass (λ _, Ok TransformerPrepare_call)) = Ok block
    ∧ call (T := Z) (R := Z) (λ r, r) (λ t, t) block (Dense 5) ()
      = Raise NotImplementedError.
Proof.
  destruct (prepare_base_class_cannot_be_called (T := Z) (R := Z) (V := Z) (K := unit)
              (Config := unit) (λ r, r) (λ t, t) (λ x _, Ok x) Z.add (λ _, Ok [])
              (OfLayer (λ _ x, Ok (2 * x))) PostNone
              (mkTransformerBlock (λ _ x, Ok (2 * x)) None None))
    as (block & Hnew & _ & _ & Hcall); [reflexivity |].
  exists block. split; [exact Hnew | apply Hcall].
Defined.

End TransformerExtra.
